(** * The RISC-V network chat server (examples/network-server/cmd/app/main.go)

    A shallow embedding of the Go program: the [Server] value, the three
    kinds of goroutines ([handleConnection], [broadcastMessages] and the
    [main] / [startServer] goroutine) and the channels between them, as an
    interleaving transition system.  Every transition is one block of the
    source that runs between two scheduling points (a channel operation, a
    [scanner.Scan], the end of a function); the scheduler and the
    environment choose the next transition through an [Action].

    Modelling choices:
    - a transition is atomic, so the goroutines interleave block by block;
      [s.clients] is an ordinary shared map, and what the Go run-time does
      when it detects two unsynchronised accesses to a map is left out;
    - a [range] over [s.clients] takes an order given with the action, any
      order that visits every key once;
    - a client is the list of lines it is going to send; between two lines
      its handler is simply not scheduled, and after the last one the
      stream has ended;
    - the time stamps that [log] adds to its lines are left out. *)

From Stdlib Require Import Ascii String.
From stdpp Require Import gmap strings list fin_maps pretty.

#[local] Set Warnings "-clear-no-such-hyp".

Set Default Proof Using "Type".

(** ** Go's library functions *)

(** [strings.TrimSpace] and [strings.ToLower] belong to Go's standard library
    and depend on the Unicode tables; the development is parametric in them. *)
Class GoStrings := {
  TrimSpace : string → string;
  ToLower : string → string
}.

(** A reading of the wall clock, as [time.Now()] returns it. [zone_offset]
    is in seconds east of UTC. *)
Record Time := {
  year : nat; month : nat; day : nat;
  hour : nat; minute : nat; second : nat;
  zone_offset : Z
}.

(** Decimal rendering, zero-padded on the left to [width] digits. *)
Definition pad_int (width n : nat) : string :=
  let digits := pretty n in
  String.concat "" (replicate (width - String.length digits) "0") +:+ digits.

(** [t.Format("15:04:05")] *)
Definition Format_hms (t : Time) : string :=
  pad_int 2 (hour t) +:+ ":" +:+ pad_int 2 (minute t) +:+ ":" +:+ pad_int 2 (second t).

Definition Format_zone (off : Z) : string :=
  if bool_decide (off = 0%Z) then "Z"
  else
    let zone := Z.quot off 60 in
    let sign := if bool_decide (zone < 0)%Z then "-" else "+" in
    let zabs := Z.to_nat (Z.abs zone) in
    sign +:+ pad_int 2 (zabs / 60) +:+ ":" +:+ pad_int 2 (zabs mod 60).

(** [t.Format(time.RFC3339)], layout [2006-01-02T15:04:05Z07:00] *)
Definition Format_RFC3339 (t : Time) : string :=
  pad_int 4 (year t) +:+ "-" +:+ pad_int 2 (month t) +:+ "-" +:+ pad_int 2 (day t)
  +:+ "T" +:+ Format_hms t +:+ Format_zone (zone_offset t).

(** The line feed, [\n] in the Go source. *)
Definition LF : string := String (ascii_of_nat 10) EmptyString.

(** ** Connections *)

(** A [net.Conn] value is identified by a number; a [nil] connection is
    [None] where the source passes one ([excludeConn]). *)
Abbreviation Conn := nat.

(** What the program can observe of one TCP connection.  [inbox] holds the
    lines the client still sends, as [bufio.Scanner] tokens (line endings
    removed); once it is empty the client has hung up.  [outbox] holds the
    chunks written to the client, oldest first.  [closed] is set by
    [conn.Close()], [broken] by a reset of the peer. *)
Record Socket := {
  remote : string;
  closed : bool;
  broken : bool;
  inbox : list string;
  outbox : list string
}.

Definition writable (s : Socket) : bool := negb (closed s) && negb (broken s).

Definition sock_write (msg : string) (s : Socket) : Socket :=
  if writable s
  then {| remote := remote s; closed := closed s; broken := broken s;
          inbox := inbox s; outbox := outbox s ++ [msg] |}
  else s.

Definition sock_close (s : Socket) : Socket :=
  {| remote := remote s; closed := true; broken := broken s;
     inbox := inbox s; outbox := outbox s |}.

Definition sock_reset (s : Socket) : Socket :=
  {| remote := remote s; closed := closed s; broken := true;
     inbox := []; outbox := outbox s |}.

Definition sock_advance (s : Socket) : Socket :=
  {| remote := remote s; closed := closed s; broken := broken s;
     inbox := tail (inbox s); outbox := outbox s |}.

(** ** Goroutines and shared state *)

(** Where a [handleConnection] goroutine stands.  The display name is a local
    variable of the goroutine from line 53 on. *)
Inductive HandlerPC :=
  | HStart                            (* lines 38-48: banner and prompt *)
  | HReadName                         (* line 50: first [scanner.Scan] *)
  | HSendJoin (name : string)         (* line 59: blocked on [newClients] *)
  | HRegister (name : string)         (* lines 60-62 *)
  | HLoop (name : string)             (* line 65: [scanner.Scan] of the loop *)
  | HSendMsg (name payload : string)  (* line 93: blocked on [messages] *)
  | HSendLeave (name : string)        (* line 98: blocked on [doneClients] *)
  | HFinish (name : string)           (* line 99 and the deferred [Close] *)
  | HDone.                            (* the goroutine has returned *)

(** Where [broadcastMessages] stands: in its [select], or in one of the
    three case bodies with the value it received. *)
Inductive CoordPC :=
  | CSelect
  | CJoin (conn : Conn)
  | CLeave (conn : Conn)
  | CMsg (message : string).

(** Where [main] / [startServer] stands; [MExited] carries the exit status
    of the process. *)
Inductive MainPC :=
  | MInit
  | MRunning
  | MDraining
  | MExited (status : nat).

(** Ghost record of the channel traffic and of the registry writes, most
    recent first: what a handler handed over and what the broadcaster has
    finished handling. *)
Inductive Event :=
  | EvJoinSent (c : Conn)
  | EvRegistered (c : Conn) (name : string)
  | EvMsgSent (c : Conn) (payload : string)
  | EvLeaveSent (c : Conn)
  | EvJoin (c : Conn)
  | EvLeave (c : Conn)
  | EvMessage (payload : string).

#[global] Instance HandlerPC_eq_dec : EqDecision HandlerPC.
Proof. solve_decision. Defined.
#[global] Instance CoordPC_eq_dec : EqDecision CoordPC.
Proof. solve_decision. Defined.
#[global] Instance MainPC_eq_dec : EqDecision MainPC.
Proof. solve_decision. Defined.
#[global] Instance Event_eq_dec : EqDecision Event.
Proof. solve_decision. Defined.

(** The [Server] value ([clients], [messages]; the two unbuffered channels
    hold nothing between a send and its receive), the sockets, the
    goroutines, and the two output sinks of the process. *)
Record World := {
  clients : gmap Conn string;
  messages : list string;
  socks : gmap Conn Socket;
  handlers : gmap Conn HandlerPC;
  coord : CoordPC;
  mainpc : MainPC;
  stdout : list string;
  logger : list string;
  history : list Event
}.

(** Capacity of [messages]: [make(chan string, 100)]. *)
Definition messages_cap : nat := 100.

Definition NewServer : World :=
  {| clients := ∅; messages := []; socks := ∅; handlers := ∅;
     coord := CSelect; mainpc := MInit; stdout := []; logger := [];
     history := [] |}.

Definition with_clients (m : gmap Conn string) (w : World) : World :=
  {| clients := m; messages := messages w; socks := socks w;
     handlers := handlers w; coord := coord w; mainpc := mainpc w;
     stdout := stdout w; logger := logger w; history := history w |}.

Definition with_messages (q : list string) (w : World) : World :=
  {| clients := clients w; messages := q; socks := socks w;
     handlers := handlers w; coord := coord w; mainpc := mainpc w;
     stdout := stdout w; logger := logger w; history := history w |}.

Definition with_socks (m : gmap Conn Socket) (w : World) : World :=
  {| clients := clients w; messages := messages w; socks := m;
     handlers := handlers w; coord := coord w; mainpc := mainpc w;
     stdout := stdout w; logger := logger w; history := history w |}.

Definition with_handlers (m : gmap Conn HandlerPC) (w : World) : World :=
  {| clients := clients w; messages := messages w; socks := socks w;
     handlers := m; coord := coord w; mainpc := mainpc w;
     stdout := stdout w; logger := logger w; history := history w |}.

Definition with_coord (p : CoordPC) (w : World) : World :=
  {| clients := clients w; messages := messages w; socks := socks w;
     handlers := handlers w; coord := p; mainpc := mainpc w;
     stdout := stdout w; logger := logger w; history := history w |}.

Definition with_mainpc (p : MainPC) (w : World) : World :=
  {| clients := clients w; messages := messages w; socks := socks w;
     handlers := handlers w; coord := coord w; mainpc := p;
     stdout := stdout w; logger := logger w; history := history w |}.

Definition with_stdout (o : list string) (w : World) : World :=
  {| clients := clients w; messages := messages w; socks := socks w;
     handlers := handlers w; coord := coord w; mainpc := mainpc w;
     stdout := o; logger := logger w; history := history w |}.

Definition with_logger (o : list string) (w : World) : World :=
  {| clients := clients w; messages := messages w; socks := socks w;
     handlers := handlers w; coord := coord w; mainpc := mainpc w;
     stdout := stdout w; logger := o; history := history w |}.

Definition with_history (h : list Event) (w : World) : World :=
  {| clients := clients w; messages := messages w; socks := socks w;
     handlers := handlers w; coord := coord w; mainpc := mainpc w;
     stdout := stdout w; logger := logger w; history := h |}.

(** ** Primitive effects *)

(** [conn.Write]: the chunk reaches the peer unless the connection is
    closed or broken; the flag is [true] when Go returns a nil error. *)
Definition conn_Write (c : Conn) (msg : string) (w : World) : World * bool :=
  match socks w !! c with
  | Some s => (with_socks (<[c := sock_write msg s]> (socks w)) w, writable s)
  | None => (w, false)
  end.

(** A write whose result the caller drops, as every call in the source. *)
Definition cWrite (c : Conn) (msg : string) (w : World) : World :=
  (conn_Write c msg w).1.

(** [conn.Close()] *)
Definition cClose (c : Conn) (w : World) : World :=
  with_socks (alter sock_close c (socks w)) w.

(** [fmt.Print] and friends write to the standard output, [log.Printf] to
    the logger. *)
Definition fmt_Print (line : string) (w : World) : World :=
  with_stdout (stdout w ++ [line]) w.

Definition log_Printf (line : string) (w : World) : World :=
  with_logger (logger w ++ [line]) w.

Definition record (e : Event) (w : World) : World :=
  with_history (e :: history w) w.

Definition goto (c : Conn) (pc : HandlerPC) (w : World) : World :=
  with_handlers (<[c := pc]> (handlers w)) w.

(** [scanner.Scan()] followed by [scanner.Text()]: the next line of the
    client, or [None] when the stream has ended or failed. *)
Definition Scan (c : Conn) (w : World) : option (string * World) :=
  match socks w !! c with
  | Some s =>
      if closed s || broken s then None
      else match inbox s with
           | line :: _ => Some (line, with_socks (<[c := sock_advance s]> (socks w)) w)
           | [] => None
           end
  | None => None
  end.

Definition RemoteAddr (c : Conn) (w : World) : string :=
  match socks w !! c with
  | Some s => remote s
  | None => ""
  end.

(** A [range] over [s.clients] visits every key once, in an order the Go
    runtime chooses afresh for each loop. *)
Definition range_ok (order : list Conn) (m : gmap Conn string) : bool :=
  bool_decide (NoDup order) && bool_decide (list_to_set order = dom m).

(** The value of [s.clients[conn]]: the zero value when the key is absent. *)
Definition clients_at (m : gmap Conn string) (c : Conn) : string :=
  default "" (m !! c).

(** ** [broadcastToAll] *)

Definition broadcastToAll (message : string) (excludeConn : option Conn)
    (order : list Conn) (w : World) : World :=
  let w1 :=
    foldl (λ acc conn,
             if bool_decide (Some conn ≠ excludeConn)
             then cWrite conn message acc
             else acc) w order in
  fmt_Print message w1.

(** ** [handleConnection] *)

Inductive Command := CmdHelp | CmdTime | CmdClients | CmdQuit | CmdChat.

(** The [switch] of line 72, on the lowered line. *)
Definition classify (lowered : string) : Command :=
  if String.eqb lowered "help" then CmdHelp
  else if String.eqb lowered "time" then CmdTime
  else if String.eqb lowered "clients" then CmdClients
  else if String.eqb lowered "quit" then CmdQuit
  else CmdChat.

Definition welcome (now : Time) : string :=
  "Welcome to RISC-V Network Server!" +:+ LF
  +:+ "Server time: " +:+ Format_RFC3339 now +:+ LF
  +:+ "Type 'help' for commands." +:+ LF +:+ LF.

Definition help_lines : list string :=
  [ "Available commands:" +:+ LF;
    "  help    - Show this help" +:+ LF;
    "  time    - Get current server time" +:+ LF;
    "  clients - List connected clients" +:+ LF;
    "  quit    - Disconnect from server" +:+ LF;
    "  <text>  - Send message to all clients" +:+ LF +:+ LF ].

Definition time_reply (now : Time) : string :=
  "Current server time: " +:+ Format_RFC3339 now +:+ LF +:+ LF.

(** What the [clients] command writes: the header with [len(s.clients)],
    one line per name in the order of the [range], and an empty line. *)
Definition clients_reply (m : gmap Conn string) (order : list Conn) : list string :=
  ("Connected clients (" +:+ pretty (size m) +:+ "):" +:+ LF)
  :: ((λ conn, "  - " +:+ clients_at m conn +:+ LF) <$> order)
  ++ [LF].

(** The payload of line 93. *)
Definition chat_line (now : Time) (clientName message : string) : string :=
  "[" +:+ Format_hms now +:+ "] " +:+ clientName +:+ ": " +:+ message.

Definition write_all (c : Conn) (chunks : list string) (w : World) : World :=
  foldl (λ acc chunk, cWrite c chunk acc) w chunks.

Section handler.
Context `{!GoStrings}.

(** One step of the goroutine serving [c].  [now] is what [time.Now()]
    returns if the step reads the clock and [order] the order of the
    [range] if the step runs one.  [None]: the goroutine is blocked on a
    channel, has returned, or does not exist. *)
Definition handleConnection (c : Conn) (now : Time) (order : list Conn)
    (w : World) : option World :=
  match handlers w !! c with
  | Some HStart =>
      let clientAddr := RemoteAddr c w in
      let w := fmt_Print ("📡 New connection from: " +:+ clientAddr +:+ LF) w in
      let w := cWrite c (welcome now) w in
      let w := cWrite c "Enter your name: " w in
      Some (goto c HReadName w)
  | Some HReadName =>
      match Scan c w with
      | None => Some (goto c HDone (cClose c w))
      | Some (text, w) =>
          let clientName := TrimSpace text in
          let clientName :=
            if String.eqb clientName "" then RemoteAddr c w else clientName in
          Some (goto c (HSendJoin clientName) w)
      end
  | Some (HRegister clientName) =>
      let w := with_clients (<[c := clientName]> (clients w)) w in
      let w := record (EvRegistered c clientName) w in
      let w := fmt_Print ("👤 Client '" +:+ clientName +:+ "' ("
                          +:+ RemoteAddr c w +:+ ") joined" +:+ LF) w in
      Some (goto c (HLoop clientName) w)
  | Some (HLoop clientName) =>
      match Scan c w with
      | None => Some (goto c (HSendLeave clientName) w)
      | Some (text, w) =>
          let message := TrimSpace text in
          if String.eqb message "" then Some w
          else match classify (ToLower message) with
               | CmdHelp => Some (write_all c help_lines w)
               | CmdTime => Some (cWrite c (time_reply now) w)
               | CmdClients =>
                   if range_ok order (clients w)
                   then Some (write_all c (clients_reply (clients w) order) w)
                   else None
               | CmdQuit =>
                   let w := cWrite c ("Goodbye!" +:+ LF) w in
                   Some (goto c HDone (cClose c w))
               | CmdChat =>
                   Some (goto c (HSendMsg clientName
                                   (chat_line now clientName message)) w)
               end
      end
  | Some (HSendMsg clientName payload) =>
      if bool_decide (length (messages w) < messages_cap)
      then
        let w := with_messages (messages w ++ [payload]) w in
        let w := record (EvMsgSent c payload) w in
        Some (goto c (HLoop clientName) w)
      else None
  | Some (HFinish clientName) =>
      let w := fmt_Print ("👋 Client '" +:+ clientName +:+ "' ("
                          +:+ RemoteAddr c w +:+ ") disconnected" +:+ LF) w in
      Some (goto c HDone (cClose c w))
  | Some (HSendJoin _) | Some (HSendLeave _) | Some HDone | None => None
  end.

End handler.

(** ** [broadcastMessages] *)

(** The body of the [select] case the broadcaster is in; it then loops back
    to the [select]. *)
Definition broadcastMessages (order : list Conn) (w : World) : option World :=
  match coord w with
  | CSelect => None
  | CJoin conn =>
      let clientName := clients_at (clients w) conn in
      let broadcastMsg := "📢 " +:+ clientName +:+ " joined the chat" +:+ LF in
      if range_ok order (clients w)
      then Some (with_coord CSelect
                   (record (EvJoin conn)
                      (broadcastToAll broadcastMsg (Some conn) order w)))
      else None
  | CLeave conn =>
      match clients w !! conn with
      | Some clientName =>
          let w := with_clients (delete conn (clients w)) w in
          let broadcastMsg := "📢 " +:+ clientName +:+ " left the chat" +:+ LF in
          if range_ok order (clients w)
          then Some (with_coord CSelect
                       (record (EvLeave conn)
                          (broadcastToAll broadcastMsg None order w)))
          else None
      | None => Some (with_coord CSelect (record (EvLeave conn) w))
      end
  | CMsg message =>
      if range_ok order (clients w)
      then Some (with_coord CSelect
                   (record (EvMessage message)
                      (broadcastToAll (message +:+ LF) None order w)))
      else None
  end.

(** ** [main] and [startServer] *)

(** [getBoardInfo]: the first of the three files that can be read. *)
Definition boardFiles : list string :=
  [ "/proc/device-tree/model"; "/sys/firmware/devicetree/base/model";
    "/etc/hostname" ].

Definition SERVER_HOST : string := "0.0.0.0".
Definition SERVER_PORT : string := "8080".
Definition SERVER_TYPE : string := "tcp".

Definition getGoVersion : string := "Go 1.21+ (cross-compiled for RISC-V)".
Definition getArchInfo : string := "RISC-V 64-bit (RV64GC)".

Section main.
Context `{!GoStrings}.

(** [ReadFile] is the file system of the host: the contents of a path, or
    [None] when reading fails. *)
Definition getBoardInfo (ReadFile : string → option string) : string :=
  default "Unknown RISC-V Board"
    (head (omap (λ file, TrimSpace <$> ReadFile file) boardFiles)).

(** [main] up to the wait for the signal.  [listen] is the error of
    [net.Listen], if any. *)
Definition startServer (ReadFile : string → option string)
    (listen : option string) (w : World) : option World :=
  match mainpc w with
  | MInit =>
      let w := fmt_Print ("🌐 RISC-V Network Server Example" +:+ LF) w in
      let w := fmt_Print ("Go version: " +:+ getGoVersion +:+ LF) w in
      let w := fmt_Print ("Architecture: " +:+ getArchInfo +:+ LF) w in
      let w := fmt_Print ("Server will listen on port " +:+ SERVER_PORT
                          +:+ LF +:+ LF) w in
      let w := fmt_Print ("🚀 Starting RISC-V Network Server" +:+ LF) w in
      let w := fmt_Print ("Board: " +:+ getBoardInfo ReadFile +:+ LF) w in
      let w := fmt_Print ("Listening on: " +:+ SERVER_HOST +:+ ":"
                          +:+ SERVER_PORT +:+ LF) w in
      let w := fmt_Print ("Server type: " +:+ SERVER_TYPE +:+ LF) w in
      let w := with_coord CSelect w in
      match listen with
      | Some err =>
          let w := log_Printf ("❌ Server error: failed to start server: "
                               +:+ err) w in
          Some (with_mainpc (MExited 1) w)
      | None =>
          let w := fmt_Print ("✅ Server started successfully!" +:+ LF) w in
          let w := fmt_Print ("💡 Try connecting with: telnet localhost 8080"
                              +:+ LF) w in
          let w := fmt_Print ("💡 Or use: nc localhost 8080" +:+ LF) w in
          let w := fmt_Print ("💡 Press Ctrl+C to stop the server" +:+ LF
                              +:+ LF) w in
          Some (with_mainpc MRunning w)
      end
  | _ => None
  end.

End main.

(** The process is alive between the start of [main] and its exit. *)
Definition alive (w : World) : bool :=
  match mainpc w with
  | MRunning | MDraining => true
  | MInit | MExited _ => false
  end.

(** Lines 169-170: the signal arrives. *)
Definition startServer_signal (w : World) : option World :=
  match mainpc w with
  | MRunning =>
      Some (with_mainpc MDraining
              (fmt_Print (LF +:+ "🛑 Shutting down server gracefully..." +:+ LF) w))
  | _ => None
  end.

(** Lines 173-179 and the return of [main]. *)
Definition startServer_shutdown (order : list Conn) (w : World) : option World :=
  match mainpc w with
  | MDraining =>
      if range_ok order (clients w)
      then
        let w :=
          foldl (λ acc conn,
                   cClose conn
                     (cWrite conn ("Server is shutting down. Goodbye!" +:+ LF) acc))
                w order in
        let w := fmt_Print ("✅ Server shutdown complete" +:+ LF) w in
        Some (with_mainpc (MExited 0) w)
      else None
  | _ => None
  end.

(** The accept loop of lines 157-166: a new connection [c] from [addr]
    whose client is going to send [input], served by a new goroutine. *)
Definition accept_step (c : Conn) (addr : string) (input : list string)
    (w : World) : option World :=
  match handlers w !! c, socks w !! c with
  | None, None =>
      let s := {| remote := addr; closed := false; broken := false;
                  inbox := input; outbox := [] |} in
      Some (goto c HStart (with_socks (<[c := s]> (socks w)) w))
  | _, _ => None
  end.

(** [listener.Accept] fails: the error is logged and the loop goes on. *)
Definition accept_error_step (err : string) (w : World) : option World :=
  Some (log_Printf ("❌ Connection error: " +:+ err) w).

(** The peer resets the connection. *)
Definition reset_step (c : Conn) (w : World) : option World :=
  match socks w !! c with
  | Some _ => Some (with_socks (alter sock_reset c (socks w)) w)
  | None => None
  end.

(** ** Channel operations *)

(** [newClients] is unbuffered: the send of line 59 and the receive of
    line 105 happen together. *)
Definition join_step (c : Conn) (w : World) : option World :=
  match handlers w !! c, coord w with
  | Some (HSendJoin clientName), CSelect =>
      Some (record (EvJoinSent c)
              (with_coord (CJoin c) (goto c (HRegister clientName) w)))
  | _, _ => None
  end.

(** [doneClients] is unbuffered too: lines 98 and 109. *)
Definition leave_step (c : Conn) (w : World) : option World :=
  match handlers w !! c, coord w with
  | Some (HSendLeave clientName), CSelect =>
      Some (record (EvLeaveSent c)
              (with_coord (CLeave c) (goto c (HFinish clientName) w)))
  | _, _ => None
  end.

(** The receive of line 115 takes the oldest queued message. *)
Definition recv_step (w : World) : option World :=
  match coord w, messages w with
  | CSelect, message :: rest =>
      Some (with_coord (CMsg message) (with_messages rest w))
  | _, _ => None
  end.

(** ** The whole program *)

(** The choices of the scheduler and of the environment. *)
Inductive Action :=
  | AStart (ReadFile : string → option string) (listen : option string)
  | AAccept (c : Conn) (addr : string) (input : list string)
  | AAcceptError (err : string)
  | AReset (c : Conn)
  | AHandle (c : Conn) (now : Time) (order : list Conn)
  | AJoin (c : Conn)
  | ALeave (c : Conn)
  | ARecv
  | ACoord (order : list Conn)
  | ASignal
  | AShutdown (order : list Conn).

Section program.
Context `{!GoStrings}.

Definition step (a : Action) (w : World) : option World :=
  match a with
  | AStart ReadFile listen => startServer ReadFile listen w
  | _ =>
      if alive w then
        match a with
        | AStart _ _ => None
        | AAccept c addr input => accept_step c addr input w
        | AAcceptError err => accept_error_step err w
        | AReset c => reset_step c w
        | AHandle c now order => handleConnection c now order w
        | AJoin c => join_step c w
        | ALeave c => leave_step c w
        | ARecv => recv_step w
        | ACoord order => broadcastMessages order w
        | ASignal => startServer_signal w
        | AShutdown order => startServer_shutdown order w
        end
      else None
  end.

Fixpoint run (acts : list Action) (w : World) : option World :=
  match acts with
  | [] => Some w
  | a :: rest =>
      match step a w with
      | Some w' => run rest w'
      | None => None
      end
  end.

(** The states the program can be in. *)
Definition reachable (w : World) : Prop :=
  ∃ acts, run acts NewServer = Some w.

End program.

(** ** An instance for ASCII text

    On strings of ASCII characters the two library functions are these;
    the examples below run the program with them. *)

Definition ascii_space (a : ascii) : bool :=
  let n := nat_of_ascii a in
  bool_decide (n = 9 ∨ n = 10 ∨ n = 11 ∨ n = 12 ∨ n = 13 ∨ n = 32).

Fixpoint trim_left (s : string) : string :=
  match s with
  | String a rest => if ascii_space a then trim_left rest else s
  | EmptyString => EmptyString
  end.

Fixpoint trim_right (s : string) : string :=
  match s with
  | String a rest =>
      match trim_right rest with
      | EmptyString => if ascii_space a then EmptyString else String a EmptyString
      | rest' => String a rest'
      end
  | EmptyString => EmptyString
  end.

Definition ascii_lower (a : ascii) : ascii :=
  let n := nat_of_ascii a in
  if bool_decide (65 ≤ n ≤ 90) then ascii_of_nat (n + 32) else a.

Fixpoint string_map (f : ascii → ascii) (s : string) : string :=
  match s with
  | String a rest => String (f a) (string_map f rest)
  | EmptyString => EmptyString
  end.

#[global] Instance ascii_strings : GoStrings :=
  {| TrimSpace s := trim_right (trim_left s);
     ToLower s := string_map ascii_lower s |}.

(** A clock reading and a host without board files, for the examples. *)
Definition noon : Time :=
  {| year := 2024; month := 1; day := 15; hour := 12; minute := 0; second := 7;
     zone_offset := 0 |}.

Definition no_files : string → option string := λ _, None.

(** ** The control skeleton

    The registry, the message queue, the program counters and the ghost
    history, without the sockets and the output sinks.  Every step of the
    program is one of the moves of [kstep] on this part of the state. *)

Record Control := {
  k_clients : gmap Conn string;
  k_messages : list string;
  k_handlers : gmap Conn HandlerPC;
  k_coord : CoordPC;
  k_mainpc : MainPC;
  k_history : list Event
}.

Definition control (w : World) : Control :=
  {| k_clients := clients w; k_messages := messages w;
     k_handlers := handlers w; k_coord := coord w; k_mainpc := mainpc w;
     k_history := history w |}.

Definition k_alive (k : Control) : Prop :=
  k_mainpc k = MRunning ∨ k_mainpc k = MDraining.

Definition k_goto (c : Conn) (pc : HandlerPC) (k : Control) : Control :=
  {| k_clients := k_clients k; k_messages := k_messages k;
     k_handlers := <[c := pc]> (k_handlers k); k_coord := k_coord k;
     k_mainpc := k_mainpc k; k_history := k_history k |}.

Definition k_record (e : Event) (k : Control) : Control :=
  {| k_clients := k_clients k; k_messages := k_messages k;
     k_handlers := k_handlers k; k_coord := k_coord k;
     k_mainpc := k_mainpc k; k_history := e :: k_history k |}.

Definition k_with_clients (m : gmap Conn string) (k : Control) : Control :=
  {| k_clients := m; k_messages := k_messages k;
     k_handlers := k_handlers k; k_coord := k_coord k;
     k_mainpc := k_mainpc k; k_history := k_history k |}.

Definition k_with_messages (q : list string) (k : Control) : Control :=
  {| k_clients := k_clients k; k_messages := q;
     k_handlers := k_handlers k; k_coord := k_coord k;
     k_mainpc := k_mainpc k; k_history := k_history k |}.

Definition k_with_coord (p : CoordPC) (k : Control) : Control :=
  {| k_clients := k_clients k; k_messages := k_messages k;
     k_handlers := k_handlers k; k_coord := p;
     k_mainpc := k_mainpc k; k_history := k_history k |}.

Definition k_with_mainpc (p : MainPC) (k : Control) : Control :=
  {| k_clients := k_clients k; k_messages := k_messages k;
     k_handlers := k_handlers k; k_coord := k_coord k;
     k_mainpc := p; k_history := k_history k |}.

(** Moves of a handler that touch nothing but its own program counter. *)
Inductive local_move : HandlerPC → HandlerPC → Prop :=
  | lm_banner : local_move HStart HReadName
  | lm_noname : local_move HReadName HDone
  | lm_name n : local_move HReadName (HSendJoin n)
  | lm_eof n : local_move (HLoop n) (HSendLeave n)
  | lm_quit n : local_move (HLoop n) HDone
  | lm_chat n p : local_move (HLoop n) (HSendMsg n p)
  | lm_finish n : local_move (HFinish n) HDone.

Inductive kstep : Action → Control → Control → Prop :=
  | ks_start f l k st :
      k_mainpc k = MInit →
      kstep (AStart f l) k (k_with_mainpc st (k_with_coord CSelect k))
  | ks_accept c addr input k :
      k_alive k → k_handlers k !! c = None →
      kstep (AAccept c addr input) k (k_goto c HStart k)
  | ks_accept_error err k :
      k_alive k → kstep (AAcceptError err) k k
  | ks_reset c k :
      k_alive k → kstep (AReset c) k k
  | ks_idle c now ord k n :
      k_alive k → k_handlers k !! c = Some (HLoop n) →
      kstep (AHandle c now ord) k k
  | ks_local c now ord k pc pc' :
      k_alive k → k_handlers k !! c = Some pc → local_move pc pc' →
      kstep (AHandle c now ord) k (k_goto c pc' k)
  | ks_register c now ord k n :
      k_alive k → k_handlers k !! c = Some (HRegister n) →
      kstep (AHandle c now ord) k
        (k_goto c (HLoop n)
           (k_record (EvRegistered c n)
              (k_with_clients (<[c := n]> (k_clients k)) k)))
  | ks_sendmsg c now ord k n p :
      k_alive k → k_handlers k !! c = Some (HSendMsg n p) →
      length (k_messages k) < messages_cap →
      kstep (AHandle c now ord) k
        (k_goto c (HLoop n)
           (k_record (EvMsgSent c p)
              (k_with_messages (k_messages k ++ [p]) k)))
  | ks_join c k n :
      k_alive k → k_handlers k !! c = Some (HSendJoin n) → k_coord k = CSelect →
      kstep (AJoin c) k
        (k_record (EvJoinSent c) (k_with_coord (CJoin c) (k_goto c (HRegister n) k)))
  | ks_leave c k n :
      k_alive k → k_handlers k !! c = Some (HSendLeave n) → k_coord k = CSelect →
      kstep (ALeave c) k
        (k_record (EvLeaveSent c) (k_with_coord (CLeave c) (k_goto c (HFinish n) k)))
  | ks_recv k m rest :
      k_alive k → k_coord k = CSelect → k_messages k = m :: rest →
      kstep ARecv k (k_with_coord (CMsg m) (k_with_messages rest k))
  | ks_cjoin ord k conn :
      k_alive k → k_coord k = CJoin conn →
      kstep (ACoord ord) k (k_with_coord CSelect (k_record (EvJoin conn) k))
  | ks_cleave ord k conn :
      k_alive k → k_coord k = CLeave conn →
      kstep (ACoord ord) k
        (k_with_coord CSelect
           (k_record (EvLeave conn)
              (k_with_clients (delete conn (k_clients k)) k)))
  | ks_cmsg ord k m :
      k_alive k → k_coord k = CMsg m →
      kstep (ACoord ord) k (k_with_coord CSelect (k_record (EvMessage m) k))
  | ks_signal k :
      k_mainpc k = MRunning →
      kstep ASignal k (k_with_mainpc MDraining k)
  | ks_shutdown ord k :
      k_mainpc k = MDraining →
      kstep (AShutdown ord) k (k_with_mainpc (MExited 0) k).

(** ** Reading the history *)

(** The events that the handler of [c] produced itself. *)
Definition emitted_by (c : Conn) (e : Event) : bool :=
  match e with
  | EvJoinSent c' | EvRegistered c' _ | EvMsgSent c' _ | EvLeaveSent c' =>
      bool_decide (c' = c)
  | EvJoin _ | EvLeave _ | EvMessage _ => false
  end.

(** The Leave events of [c], sent or handled. *)
Definition leave_of (c : Conn) (e : Event) : bool :=
  match e with
  | EvLeaveSent c' | EvLeave c' => bool_decide (c' = c)
  | _ => false
  end.

(** Whether the broadcaster has handled a Join of [c] and no Leave of [c]
    after it (the history is most recent first). *)
Fixpoint joined_not_left (c : Conn) (h : list Event) : bool :=
  match h with
  | [] => false
  | EvJoin c' :: rest =>
      if bool_decide (c' = c) then true else joined_not_left c rest
  | EvLeave c' :: rest =>
      if bool_decide (c' = c) then false else joined_not_left c rest
  | _ :: rest => joined_not_left c rest
  end.

(** Whether the handler of [c] has written its registry entry and the
    broadcaster has handled no Leave of [c] after that. *)
Fixpoint registered_not_left (c : Conn) (h : list Event) : bool :=
  match h with
  | [] => false
  | EvRegistered c' _ :: rest =>
      if bool_decide (c' = c) then true else registered_not_left c rest
  | EvLeave c' :: rest =>
      if bool_decide (c' = c) then false else registered_not_left c rest
  | _ :: rest => registered_not_left c rest
  end.

(** What holds of connection [c] at each point of its handler. *)
Definition pc_inv (c : Conn) (k : Control) : Prop :=
  match k_handlers k !! c with
  | None | Some HStart | Some HReadName | Some (HSendJoin _) =>
      k_clients k !! c = None ∧ k_coord k ≠ CLeave c
      ∧ List.filter (leave_of c) (k_history k) = []
      ∧ List.filter (emitted_by c) (k_history k) = []
  | Some (HRegister _) =>
      k_clients k !! c = None ∧ k_coord k ≠ CLeave c
      ∧ List.filter (leave_of c) (k_history k) = []
  | Some (HLoop n) | Some (HSendMsg n _) | Some (HSendLeave n) =>
      k_clients k !! c = Some n ∧ k_coord k ≠ CLeave c
      ∧ List.filter (leave_of c) (k_history k) = []
  | Some (HFinish _) | Some HDone => True
  end.

Definition Inv (k : Control) : Prop := ∀ c, pc_inv c k.

(** A handler that returned without ever registering. *)
Definition gone_unregistered (c : Conn) (k : Control) : Prop :=
  k_handlers k !! c = Some HDone ∧ k_clients k !! c = None
  ∧ List.filter (emitted_by c) (k_history k) = [].

(** A handler that returned while its entry is in the registry and no
    Leave of it is under way; [past] are the Leave events of [c] so far. *)
Definition gone_registered (c : Conn) (n : string) (past : list Event)
    (k : Control) : Prop :=
  k_handlers k !! c = Some HDone ∧ k_clients k !! c = Some n
  ∧ k_coord k ≠ CLeave c
  ∧ List.filter (leave_of c) (k_history k) = past.

(** ** The claims of the specification that the program does not meet,
    as the specification words them *)

Section spec_claims.
Context `{!GoStrings}.

(** No handler step writes the registry. *)
Definition spec_single_writer : Prop :=
  ∀ w c now ord w',
    reachable w → step (AHandle c now ord) w = Some w' →
    clients w' = clients w.

(** A connection is in the registry exactly when its Join has been
    handled and no Leave of it has been handled since. *)
Definition spec_registry_invariant : Prop :=
  ∀ w c, reachable w →
         (c ∈ dom (clients w) ↔ joined_not_left c (history w) = true).

(** A handler that has not handed over its Join when draining begins
    never enters the registry. *)
Definition spec_no_join_while_draining : Prop :=
  ∀ w c name acts w',
    reachable w → mainpc w = MDraining →
    handlers w !! c = Some (HSendJoin name) →
    run acts w = Some w' → clients w' !! c = None.

(** A failed write of a broadcast shows in the logger or in the standard
    output, beyond the message that every broadcast prints. *)
Definition spec_failure_logged : Prop :=
  ∀ w message excl order c,
    reachable w → c ∈ order → Some c ≠ excl →
    (conn_Write c message w).2 = false →
    let w' := broadcastToAll message excl order w in
    logger w' ≠ logger w ∨ stdout w' ≠ stdout w ++ [message].

(** Two [clients] commands with the registry and the history unchanged in
    between write the same reply. *)
Definition spec_clients_idempotent : Prop :=
  ∀ w c name ord1 ord2 now1 now2 line1 line2 w1 w2 wa wb,
    reachable w → handlers w !! c = Some (HLoop name) →
    Scan c w = Some (line1, wa) → ToLower (TrimSpace line1) = "clients" →
    step (AHandle c now1 ord1) w = Some w1 →
    Scan c w1 = Some (line2, wb) → ToLower (TrimSpace line2) = "clients" →
    step (AHandle c now2 ord2) w1 = Some w2 →
    ∀ s s1 s2,
      socks w !! c = Some s → socks w1 !! c = Some s1 →
      socks w2 !! c = Some s2 →
      drop (length (outbox s)) (outbox s1)
      = drop (length (outbox s1)) (outbox s2).

End spec_claims.

(** ** Example runs *)

Definition after (acts : list Action) : World :=
  default NewServer (run acts NewServer).

Definition alice_addr : string := "10.0.0.1:5000".
Definition bob_addr : string := "10.0.0.2:5001".

(** The server is up, Alice has connected and sent her name, and her
    handler is about to hand its Join over; [input] is what she sends
    afterwards. *)
Definition alice_named (input : list string) : list Action :=
  [ AStart no_files None;
    AAccept 1 alice_addr ("Alice" :: input);
    AHandle 1 noon []; AHandle 1 noon [] ].

(** Alice is in the registry and announced. *)
Definition alice_joined (input : list string) : list Action :=
  alice_named input ++ [ AJoin 1; AHandle 1 noon []; ACoord [1] ].

(** Then Bob connects and registers as well. *)
Definition both_joined (input : list string) : list Action :=
  alice_joined input
  ++ [ AAccept 2 bob_addr ["Bob"]; AHandle 2 noon []; AHandle 2 noon [];
       AJoin 2; AHandle 2 noon []; ACoord [1; 2] ].

(** The worlds at which the claims are examined. *)

(** Alice's Join has been received; her handler has not yet run line 60. *)
Definition join_received : World := after (alice_named [] ++ [AJoin 1]).

(** ... and the broadcaster has finished handling that Join. *)
Definition join_handled : World :=
  after (alice_named [] ++ [AJoin 1; ACoord []]).

(** The signal arrived while Alice's handler was waiting to register. *)
Definition draining : World := after (alice_named [] ++ [ASignal]).

(** Alice is registered and her next line is [quit]. *)
Definition before_quit : World := after (alice_joined ["quit"]).

(** Alice and Bob are registered, and Alice has quit. *)
Definition alice_quit : World :=
  after (both_joined ["quit"] ++ [AHandle 1 noon []]).

(** Alice and Bob are registered; Alice asks for the list twice. *)
Definition two_clients : World := after (both_joined ["clients"; "clients"]).
Definition first_reply : World :=
  after (both_joined ["clients"; "clients"] ++ [AHandle 1 noon [1; 2]]).
Definition second_reply : World :=
  after (both_joined ["clients"; "clients"]
         ++ [AHandle 1 noon [1; 2]; AHandle 1 noon [2; 1]]).

(** Alice and Bob are registered; Alice says [hi]. *)
Definition before_chat : World := after (both_joined ["  hi "]).

(** Alice is registered and asks for help. *)
Definition before_help : World := after (alice_joined ["  HeLP "]).

(** A client connected and hung up before sending a name. *)
Definition silent_client : World :=
  after [ AStart no_files None; AAccept 1 alice_addr []; AHandle 1 noon [] ].

(** The same worlds one step later. *)
Definition alice_registered : World :=
  after (alice_named [] ++ [AJoin 1; AHandle 1 noon []]).
Definition after_quit : World :=
  after (alice_joined ["quit"] ++ [AHandle 1 noon []]).

(** The world a successful [Scan] of [c] leaves. *)
Definition scanned (c : Conn) (w : World) : World :=
  match Scan c w with
  | Some (_, w1) => w1
  | None => w
  end.

(** What was written to [c] between [w] and [w']. *)
Definition written (c : Conn) (w w' : World) : list string :=
  match socks w !! c, socks w' !! c with
  | Some s, Some s' => drop (length (outbox s)) (outbox s')
  | _, _ => []
  end.

(** ** Reading the message traffic *)

(** The payloads that handlers queued on [messages], oldest first. *)
Definition sent_payloads (h : list Event) : list string :=
  omap (λ e, match e with EvMsgSent _ p => Some p | _ => None end) (rev h).

(** The payloads that the broadcaster has finished broadcasting, oldest
    first. *)
Definition handled_payloads (h : list Event) : list string :=
  omap (λ e, match e with EvMessage p => Some p | _ => None end) (rev h).

(** The payload the broadcaster has received and not yet broadcast. *)
Definition in_flight (p : CoordPC) : list string :=
  match p with
  | CMsg m => [m]
  | _ => []
  end.

(** Every payload sent is handled, in flight or queued, in the order of the
    sends; before [main] starts the broadcaster does not exist. *)
Definition fifo (k : Control) : Prop :=
  (k_mainpc k = MInit → k_coord k = CSelect ∧ k_messages k = [])
  ∧ sent_payloads (k_history k)
    = handled_payloads (k_history k) ++ in_flight (k_coord k) ++ k_messages k.

(** The text of the two announcements of [broadcastMessages]. *)
Definition joined_msg (clientName : string) : string :=
  "📢 " +:+ clientName +:+ " joined the chat" +:+ LF.


(** The display name that lines 53-56 derive from the first line. *)
Definition display_name `{!GoStrings} (line addr : string) : string :=
  if String.eqb (TrimSpace line) "" then addr else TrimSpace line.

(** A connection whose local end is closed, with what was written to it. *)
Definition closed_with (c : Conn) (out : list string) (w : World) : Prop :=
  ∃ s, socks w !! c = Some s ∧ closed s = true ∧ outbox s = out.

(** ** Counting the events of a connection *)

Definition is_join_sent (c : Conn) (e : Event) : bool :=
  match e with EvJoinSent c' => bool_decide (c' = c) | _ => false end.
Definition is_registered (c : Conn) (e : Event) : bool :=
  match e with EvRegistered c' _ => bool_decide (c' = c) | _ => false end.
Definition is_leave_sent (c : Conn) (e : Event) : bool :=
  match e with EvLeaveSent c' => bool_decide (c' = c) | _ => false end.
Definition is_join_handled (c : Conn) (e : Event) : bool :=
  match e with EvJoin c' => bool_decide (c' = c) | _ => false end.
Definition is_leave_handled (c : Conn) (e : Event) : bool :=
  match e with EvLeave c' => bool_decide (c' = c) | _ => false end.

Definition count_ev (P : Event → bool) (h : list Event) : nat :=
  length (List.filter P h).

(** How many Joins, resp. Leaves, of [c] the broadcaster holds unhandled. *)
Definition join_pending (c : Conn) (p : CoordPC) : nat :=
  match p with CJoin c' => if bool_decide (c' = c) then 1 else 0 | _ => 0 end.
Definition leave_pending (c : Conn) (p : CoordPC) : nat :=
  match p with CLeave c' => if bool_decide (c' = c) then 1 else 0 | _ => 0 end.

(** The events of connection [c] against the point its handler is at. *)
Definition discipline (c : Conn) (k : Control) : Prop :=
  let h := k_history k in
  count_ev (is_join_handled c) h + join_pending c (k_coord k)
  = count_ev (is_join_sent c) h
  ∧ count_ev (is_leave_handled c) h + leave_pending c (k_coord k)
    = count_ev (is_leave_sent c) h
  ∧ match k_handlers k !! c with
    | None | Some HStart | Some HReadName | Some (HSendJoin _) =>
        count_ev (is_join_sent c) h = 0 ∧ count_ev (is_registered c) h = 0
        ∧ count_ev (is_leave_sent c) h = 0
    | Some (HRegister _) =>
        count_ev (is_join_sent c) h = 1 ∧ count_ev (is_registered c) h = 0
        ∧ count_ev (is_leave_sent c) h = 0
    | Some (HLoop _) | Some (HSendMsg _ _) | Some (HSendLeave _) =>
        count_ev (is_join_sent c) h = 1 ∧ count_ev (is_registered c) h = 1
        ∧ count_ev (is_leave_sent c) h = 0
    | Some (HFinish _) =>
        count_ev (is_join_sent c) h = 1 ∧ count_ev (is_registered c) h = 1
        ∧ count_ev (is_leave_sent c) h = 1
    | Some HDone =>
        count_ev (is_join_sent c) h ≤ 1
        ∧ count_ev (is_registered c) h ≤ count_ev (is_join_sent c) h
        ∧ count_ev (is_leave_sent c) h ≤ count_ev (is_registered c) h
    end.

Definition Discipline (k : Control) : Prop :=
  (k_mainpc k = MInit → k_coord k = CSelect) ∧ ∀ c, discipline c k.

(** ** Further example runs *)

(** Alice is registered; Bob has sent his name and the broadcaster has
    received his Join. *)
Definition bob_join_received : World :=
  after (alice_joined []
         ++ [ AAccept 2 bob_addr ["Bob"]; AHandle 2 noon []; AHandle 2 noon [];
              AJoin 2 ]).
Definition bob_announced : World :=
  after (alice_joined []
         ++ [ AAccept 2 bob_addr ["Bob"]; AHandle 2 noon []; AHandle 2 noon [];
              AJoin 2; ACoord [1] ]).


(** Alice's stream has ended and the broadcaster has received her Leave. *)
Definition alice_leaving : World :=
  after (both_joined [] ++ [ AHandle 1 noon []; ALeave 1 ]).

(** A client has connected and sends a line of blanks as its name. *)
Definition blank_name : World :=
  after [ AStart no_files None; AAccept 1 alice_addr ["   "];
          AHandle 1 noon [] ].

(** Alice has said [hi] and the broadcaster has received the payload. *)
Definition chat_received : World :=
  after (both_joined ["hi"] ++ [ AHandle 1 noon []; AHandle 1 noon []; ARecv ]).

(** Alice is the only client and asks for the list. *)
Definition alone_asks : World := after (alice_joined ["clients"]).

(** Alice has said [hi] while Bob was still being asked for his name. *)
Definition bob_unnamed : World :=
  after (alice_joined ["hi"]
         ++ [ AAccept 2 bob_addr ["Bob"]; AHandle 2 noon [];
              AHandle 1 noon []; AHandle 1 noon []; ARecv ]).
Definition bob_unnamed_after : World :=
  after (alice_joined ["hi"]
         ++ [ AAccept 2 bob_addr ["Bob"]; AHandle 2 noon [];
              AHandle 1 noon []; AHandle 1 noon []; ARecv; ACoord [1] ]).

(** The server has drained while Alice's handler was waiting to register. *)
Definition drained : World :=
  after (alice_named [] ++ [ ASignal; AShutdown [] ]).

(** Alice has quit; then Bob's stream ends and his departure is announced. *)
Definition bob_left_after_quit : World :=
  after (both_joined ["quit"]
         ++ [ AHandle 1 noon []; AHandle 2 noon []; ALeave 2; ACoord [1] ]).

(** A client has just been accepted; its handler has not run yet. *)
Definition just_accepted : World :=
  after [ AStart no_files None; AAccept 1 alice_addr ["Alice"] ].

(** * Proofs *)

(** ** Frame facts: what the socket and output operations leave alone *)

Lemma control_cWrite c msg w : control (cWrite c msg w) = control w.
Proof. unfold cWrite, conn_Write. by destruct (socks w !! c). Qed.

Lemma control_cClose c w : control (cClose c w) = control w.
Proof. done. Qed.

Lemma control_fmt_Print line w : control (fmt_Print line w) = control w.
Proof. done. Qed.

Lemma control_write_all c chunks w : control (write_all c chunks w) = control w.
Proof.
  unfold write_all. revert w.
  induction chunks as [|x xs IH]; intros w; simpl; [done|].
  by rewrite IH, control_cWrite.
Qed.

Lemma control_broadcast_loop message excl order w :
  control (foldl (λ acc conn,
                    if bool_decide (Some conn ≠ excl)
                    then cWrite conn message acc else acc) w order)
  = control w.
Proof.
  revert w. induction order as [|x xs IH]; intros w; simpl; [done|].
  rewrite IH. case_bool_decide; [apply control_cWrite | done].
Qed.

Lemma control_broadcastToAll message excl order w :
  control (broadcastToAll message excl order w) = control w.
Proof.
  unfold broadcastToAll. by rewrite control_fmt_Print, control_broadcast_loop.
Qed.

Lemma control_shutdown_loop notice order w :
  control (foldl (λ acc conn, cClose conn (cWrite conn notice acc)) w order)
  = control w.
Proof.
  revert w. induction order as [|x xs IH]; intros w; simpl; [done|].
  by rewrite IH, control_cClose, control_cWrite.
Qed.

Lemma control_Scan c w text w' :
  Scan c w = Some (text, w') → control w' = control w.
Proof.
  unfold Scan. intros Hs.
  destruct (socks w !! c) as [s|]; [|done].
  destruct (closed s || broken s); [done|].
  destruct (inbox s); [done|]. by simplify_eq.
Qed.

Lemma alive_k_alive w : alive w = true → k_alive (control w).
Proof. unfold alive, k_alive. simpl. destruct (mainpc w); naive_solver. Qed.

Lemma control_goto c pc w : control (goto c pc w) = k_goto c pc (control w).
Proof. done. Qed.
Lemma control_record e w : control (record e w) = k_record e (control w).
Proof. done. Qed.
Lemma control_with_clients m w :
  control (with_clients m w) = k_with_clients m (control w).
Proof. done. Qed.
Lemma control_with_messages q w :
  control (with_messages q w) = k_with_messages q (control w).
Proof. done. Qed.
Lemma control_with_coord p w :
  control (with_coord p w) = k_with_coord p (control w).
Proof. done. Qed.
Lemma control_with_mainpc p w :
  control (with_mainpc p w) = k_with_mainpc p (control w).
Proof. done. Qed.
Lemma control_with_socks m w : control (with_socks m w) = control w.
Proof. done. Qed.
Lemma control_log_Printf line w : control (log_Printf line w) = control w.
Proof. done. Qed.

Create Rewrite HintDb control.
#[export] Hint Rewrite control_goto control_record control_with_clients
  control_with_messages control_with_coord control_with_mainpc
  control_with_socks control_log_Printf control_fmt_Print control_cWrite
  control_cClose control_write_all control_broadcastToAll
  control_shutdown_loop : control.

Lemma k_delete_absent conn k :
  k_clients k !! conn = None →
  k_with_clients (delete conn (k_clients k)) k = k.
Proof. intros Hn. destruct k; unfold k_with_clients; simpl in *. f_equal. by apply delete_id. Qed.

Section skeleton.
Context `{!GoStrings}.

Lemma handleConnection_kstep c now ord w w' :
  alive w = true →
  handleConnection c now ord w = Some w' →
  kstep (AHandle c now ord) (control w) (control w').
Proof.
  intros Ha%alive_k_alive Hs. unfold handleConnection in Hs.
  destruct (handlers w !! c) as [pc|] eqn:Hpc; [|done].
  destruct pc; try done.
  - injection Hs as <-. autorewrite with control.
    eapply ks_local; eauto using local_move.
  - destruct (Scan c w) as [[text w1]|] eqn:Hscan.
    + injection Hs as <-. autorewrite with control.
      rewrite (control_Scan _ _ _ _ Hscan).
      eapply ks_local; eauto using local_move.
    + injection Hs as <-. autorewrite with control.
      eapply ks_local; eauto using local_move.
  - injection Hs as <-. autorewrite with control. by apply ks_register.
  - destruct (Scan c w) as [[text w1]|] eqn:Hscan.
    + pose proof (control_Scan _ _ _ _ Hscan) as Hk.
      destruct (String.eqb (TrimSpace text) "").
      { injection Hs as <-. rewrite Hk. by eapply ks_idle. }
      destruct (classify (ToLower (TrimSpace text))).
      * injection Hs as <-. autorewrite with control. rewrite Hk. by eapply ks_idle.
      * injection Hs as <-. autorewrite with control. rewrite Hk. by eapply ks_idle.
      * destruct (range_ok ord (clients w1)); [|done].
        injection Hs as <-. autorewrite with control. rewrite Hk. by eapply ks_idle.
      * injection Hs as <-. autorewrite with control. rewrite Hk.
        eapply ks_local; eauto using local_move.
      * injection Hs as <-. autorewrite with control. rewrite Hk.
        eapply ks_local; eauto using local_move.
    + injection Hs as <-. autorewrite with control.
      eapply ks_local; eauto using local_move.
  - case_bool_decide; [|done]. injection Hs as <-. autorewrite with control.
    by apply ks_sendmsg.
  - injection Hs as <-. autorewrite with control.
    eapply ks_local; eauto using local_move.
Qed.

Lemma broadcastMessages_kstep ord w w' :
  alive w = true →
  broadcastMessages ord w = Some w' →
  kstep (ACoord ord) (control w) (control w').
Proof.
  intros Ha%alive_k_alive Hs. unfold broadcastMessages in Hs.
  destruct (coord w) as [|conn|conn|m] eqn:Hc; [done|..].
  - destruct (range_ok ord (clients w)); [|done].
    injection Hs as <-. autorewrite with control. by apply ks_cjoin.
  - destruct (clients w !! conn) as [n|] eqn:Hn.
    + destruct (range_ok ord _); [|done].
      injection Hs as <-. autorewrite with control. by apply ks_cleave.
    + injection Hs as <-. autorewrite with control.
      rewrite <-(k_delete_absent conn (control w)) at 2 by done.
      by apply ks_cleave.
  - destruct (range_ok ord (clients w)); [|done].
    injection Hs as <-. autorewrite with control. by apply ks_cmsg.
Qed.

(** Every step of the program is a move of the skeleton. *)
Lemma step_kstep a w w' :
  step a w = Some w' → kstep a (control w) (control w').
Proof.
  destruct a; simpl.
  - unfold startServer. destruct (mainpc w) eqn:Hm; try done.
    destruct listen; intros; simplify_eq; autorewrite with control;
      by apply ks_start.
  - destruct (alive w) eqn:Ha; [|done]. apply alive_k_alive in Ha.
    unfold accept_step.
    destruct (handlers w !! c) eqn:Hh; [done|].
    destruct (socks w !! c); [done|].
    intros; simplify_eq. autorewrite with control. by apply ks_accept.
  - destruct (alive w) eqn:Ha; [|done]. apply alive_k_alive in Ha.
    unfold accept_error_step. intros; simplify_eq.
    autorewrite with control. by apply ks_accept_error.
  - destruct (alive w) eqn:Ha; [|done]. apply alive_k_alive in Ha.
    unfold reset_step. destruct (socks w !! c); [|done].
    intros; simplify_eq. autorewrite with control. by apply ks_reset.
  - destruct (alive w) eqn:Ha; [|done]. by apply handleConnection_kstep.
  - destruct (alive w) eqn:Ha; [|done]. apply alive_k_alive in Ha.
    unfold join_step.
    destruct (handlers w !! c) as [[]|] eqn:Hh; try done.
    destruct (coord w) eqn:Hc; try done.
    intros; simplify_eq. autorewrite with control. by apply ks_join.
  - destruct (alive w) eqn:Ha; [|done]. apply alive_k_alive in Ha.
    unfold leave_step.
    destruct (handlers w !! c) as [[]|] eqn:Hh; try done.
    destruct (coord w) eqn:Hc; try done.
    intros; simplify_eq. autorewrite with control. by apply ks_leave.
  - destruct (alive w) eqn:Ha; [|done]. apply alive_k_alive in Ha.
    unfold recv_step.
    destruct (coord w) eqn:Hc; try done.
    destruct (messages w) eqn:Hq; try done.
    intros; simplify_eq. autorewrite with control. by eapply ks_recv.
  - destruct (alive w) eqn:Ha; [|done]. by apply broadcastMessages_kstep.
  - destruct (alive w) eqn:Ha; [|done].
    unfold startServer_signal. destruct (mainpc w) eqn:Hm; try done.
    intros; simplify_eq. autorewrite with control. by apply ks_signal.
  - destruct (alive w) eqn:Ha; [|done].
    unfold startServer_shutdown. destruct (mainpc w) eqn:Hm; try done.
    destruct (range_ok order (clients w)); [|done].
    intros; simplify_eq. autorewrite with control. by apply ks_shutdown.
Qed.

End skeleton.

(** ** Invariants of the skeleton *)

Section invariants.
Context `{!GoStrings}.

Lemma run_app acts1 acts2 w :
  run (acts1 ++ acts2) w = run acts1 w ≫= run acts2.
Proof.
  revert w. induction acts1 as [|a acts1 IH]; intros w; simpl; [done|].
  destruct (step a w); simpl; [apply IH | done].
Qed.

(** A property of the skeleton that every move keeps is kept by every run. *)
Lemma run_kinv (P : Control → Prop) :
  (∀ a k k', P k → kstep a k k' → P k') →
  ∀ acts w w', P (control w) → run acts w = Some w' → P (control w').
Proof.
  intros Hstep acts. induction acts as [|a acts IH]; intros w w' HP Hrun.
  - simpl in Hrun. by simplify_eq.
  - simpl in Hrun. destruct (step a w) as [w1|] eqn:Hs; [|done].
    eapply IH; [|done]. eapply Hstep; [done|]. by apply step_kstep.
Qed.

Lemma reachable_kinv (P : Control → Prop) :
  P (control NewServer) →
  (∀ a k k', P k → kstep a k k' → P k') →
  ∀ w, reachable w → P (control w).
Proof. intros H0 Hstep w [acts Hrun]. by eapply run_kinv. Qed.

End invariants.

Lemma Inv_init : Inv (control NewServer).
Proof. intros c. unfold pc_inv. simpl. by rewrite !lookup_empty. Qed.

Lemma Inv_kstep a k k' : Inv k → kstep a k k' → Inv k'.
Proof.
  intros HI Hs c0. pose proof (HI c0) as Hc0.
  inversion Hs; subst; clear Hs; unfold pc_inv in *; simpl in *; try done.
  all: try match goal with
       | H : k_handlers _ !! ?c = _ |- _ =>
           destruct (decide (c0 = c)) as [->|Hne];
           [ rewrite ?lookup_insert_eq; rewrite H in Hc0
           | rewrite ?lookup_insert_ne by done ]
       end.
  all: try lazymatch goal with
       | H : local_move _ _ |- _ => inversion H; subst; clear H
       end.
  all: simpl in *.
  all: rewrite ?lookup_insert_eq, ?lookup_insert_ne, ?lookup_delete_eq by done.
  all: try done.
  all: rewrite ?lookup_delete.
  all: try (intuition congruence).
  all: match goal with
       | |- context [k_handlers ?k !! ?c] =>
           destruct (k_handlers k !! c) as [[]|]; simpl in *;
           repeat case_bool_decide; repeat case_decide; simplify_eq;
           try done; intuition congruence
       end.
Qed.

(** ** Sockets under the loops *)

Lemma socks_cWrite c msg w :
  socks (cWrite c msg w) = alter (sock_write msg) c (socks w).
Proof.
  unfold cWrite, conn_Write.
  destruct (socks w !! c) as [s|] eqn:Hs; simpl.
  - apply map_eq. intros i. destruct (decide (i = c)) as [->|Hne].
    + by rewrite lookup_insert_eq, lookup_alter_eq, Hs.
    + by rewrite lookup_insert_ne, lookup_alter_ne.
  - apply map_eq. intros i. destruct (decide (i = c)) as [->|Hne].
    + by rewrite lookup_alter_eq, Hs.
    + by rewrite lookup_alter_ne.
Qed.

Lemma outputs_cWrite c msg w :
  stdout (cWrite c msg w) = stdout w ∧ logger (cWrite c msg w) = logger w.
Proof. unfold cWrite, conn_Write. by destruct (socks w !! c). Qed.

Lemma broadcast_loop_socks message excl order w c :
  NoDup order →
  socks (foldl (λ acc conn,
                  if bool_decide (Some conn ≠ excl)
                  then cWrite conn message acc else acc) w order) !! c
  = if bool_decide (c ∈ order ∧ Some c ≠ excl)
    then sock_write message <$> socks w !! c
    else socks w !! c.
Proof.
  intros Hnd. revert w. induction Hnd as [|x xs Hx Hnd IH]; intros w.
  - rewrite bool_decide_eq_false_2; [done|]. set_solver.
  - cbn [foldl]. rewrite IH. destruct (decide (c = x)) as [->|Hne].
    + rewrite (bool_decide_eq_false_2 (x ∈ xs ∧ Some x ≠ excl)) by naive_solver.
      destruct (decide (Some x ≠ excl)) as [Hex|Hex].
      * rewrite (bool_decide_eq_true_2 (Some x ≠ excl)) by done.
        rewrite (bool_decide_eq_true_2 (x ∈ x :: xs ∧ Some x ≠ excl))
          by set_solver.
        by rewrite socks_cWrite, lookup_alter_eq.
      * rewrite (bool_decide_eq_false_2 (Some x ≠ excl)) by done.
        by rewrite (bool_decide_eq_false_2 (x ∈ x :: xs ∧ Some x ≠ excl))
          by naive_solver.
    + assert (socks (if bool_decide (Some x ≠ excl)
                     then cWrite x message w else w) !! c = socks w !! c) as ->.
      { destruct (bool_decide (Some x ≠ excl)); [|done].
        by rewrite socks_cWrite, lookup_alter_ne. }
      rewrite (bool_decide_ext (c ∈ xs ∧ Some c ≠ excl)
                 (c ∈ x :: xs ∧ Some c ≠ excl)); [done|]. set_solver.
Qed.

Lemma broadcast_loop_outputs message excl order w :
  let w' := foldl (λ acc conn,
                     if bool_decide (Some conn ≠ excl)
                     then cWrite conn message acc else acc) w order in
  stdout w' = stdout w ∧ logger w' = logger w.
Proof.
  simpl. revert w. induction order as [|x xs IH]; intros w; simpl; [done|].
  destruct (IH (if bool_decide (Some x ≠ excl)
                then cWrite x message w else w)) as [-> ->].
  case_bool_decide; [apply outputs_cWrite | done].
Qed.

Lemma shutdown_loop_socks notice order w c :
  NoDup order →
  socks (foldl (λ acc conn, cClose conn (cWrite conn notice acc)) w order) !! c
  = if bool_decide (c ∈ order)
    then (λ s, sock_close (sock_write notice s)) <$> socks w !! c
    else socks w !! c.
Proof.
  intros Hnd. revert w. induction Hnd as [|x xs Hx Hnd IH]; intros w.
  - rewrite bool_decide_eq_false_2; [done|]. set_solver.
  - cbn [foldl]. rewrite IH. unfold cClose. cbn [socks with_socks].
    rewrite socks_cWrite.
    destruct (decide (c = x)) as [->|Hne].
    + rewrite (bool_decide_eq_false_2 (x ∈ xs)) by done.
      rewrite bool_decide_eq_true_2 by set_solver.
      rewrite !lookup_alter_eq. by destruct (socks w !! x).
    + rewrite !lookup_alter_ne by done.
      rewrite (bool_decide_ext (c ∈ xs) (c ∈ x :: xs)); [done|]. set_solver.
Qed.

Lemma range_ok_spec order m :
  range_ok order m = true ↔ NoDup order ∧ ∀ c, c ∈ order ↔ c ∈ dom m.
Proof.
  unfold range_ok. rewrite andb_true_iff, !bool_decide_eq_true.
  split; intros [Hnd Hd]; (split; [done|]).
  - intros c. rewrite <-Hd. set_solver.
  - apply set_eq. intros c. rewrite <-Hd. set_solver.
Qed.


Lemma range_ok_Permutation order1 order2 m :
  range_ok order1 m = true → range_ok order2 m = true → order1 ≡ₚ order2.
Proof.
  intros [Hn1 H1]%range_ok_spec [Hn2 H2]%range_ok_spec.
  apply NoDup_Permutation; [done..|]. intros c. by rewrite H1, H2.
Qed.

(** ** The command interpreter *)

Lemma classify_chat lowered :
  lowered ∉ ["help"; "time"; "clients"; "quit"] → classify lowered = CmdChat.
Proof.
  intros Hn. unfold classify.
  rewrite !not_elem_of_cons in Hn. destruct Hn as (H1 & H2 & H3 & H4 & _).
  apply String.eqb_neq in H1, H2, H3, H4. by rewrite H1, H2, H3, H4.
Qed.

Lemma Scan_clients c w line w1 :
  Scan c w = Some (line, w1) →
  clients w1 = clients w ∧ handlers w1 = handlers w
  ∧ messages w1 = messages w ∧ history w1 = history w
  ∧ alive w1 = alive w.
Proof.
  intros Hk%control_Scan. injection Hk as Hc Hm Hh Hco Hmp Hhi. unfold alive. rewrite Hmp.
  by split_and!.
Qed.

Section interpreter.
Context `{!GoStrings}.

(** C6. Each line read in the loop is trimmed and, when something is left,
    lowered and compared with the four command words: an empty line only
    consumes the input; [help], [time], [clients] and [quit] write their
    reply to this connection and put nothing on a channel; every other
    line becomes the payload of a send on [messages], which the next step
    of the handler queues. *)
Theorem C6_line_classification (w w1 : World) (c : Conn) (name line : string)
    (now : Time) (ord : list Conn) :
  alive w = true →
  handlers w !! c = Some (HLoop name) →
  Scan c w = Some (line, w1) →
  let message := TrimSpace line in
  let lowered := ToLower message in
  (message = "" → step (AHandle c now ord) w = Some w1)
  ∧ (message ≠ "" → lowered = "help" →
     step (AHandle c now ord) w = Some (write_all c help_lines w1))
  ∧ (message ≠ "" → lowered = "time" →
     step (AHandle c now ord) w = Some (cWrite c (time_reply now) w1))
  ∧ (message ≠ "" → lowered = "clients" → range_ok ord (clients w) = true →
     step (AHandle c now ord) w
     = Some (write_all c (clients_reply (clients w) ord) w1))
  ∧ (message ≠ "" → lowered = "quit" →
     step (AHandle c now ord) w
     = Some (goto c HDone (cClose c (cWrite c ("Goodbye!" +:+ LF) w1))))
  ∧ (message = "" ∨ lowered ∈ ["help"; "time"; "clients"; "quit"] →
     ∀ w', step (AHandle c now ord) w = Some w' →
           messages w' = messages w ∧ history w' = history w)
  ∧ (message ≠ "" → lowered ∉ ["help"; "time"; "clients"; "quit"] →
     let payload := chat_line now name message in
     let w2 := goto c (HSendMsg name payload) w1 in
     step (AHandle c now ord) w = Some w2
     ∧ (length (messages w) < messages_cap →
        ∀ now' ord', ∃ w3,
          step (AHandle c now' ord') w2 = Some w3
          ∧ messages w3 = messages w ++ [payload]
          ∧ history w3 = EvMsgSent c payload :: history w
          ∧ handlers w3 !! c = Some (HLoop name))).
Proof.
  intros Ha Hpc Hscan message lowered.
  destruct (Scan_clients _ _ _ _ Hscan) as (Hcl & Hh & Hm & Hhist & Hal).
  assert (∀ w', step (AHandle c now ord) w = Some w' →
                handleConnection c now ord w = Some w') as Hstep.
  { intros w'. simpl. by rewrite Ha. }
  assert (step (AHandle c now ord) w =
          if String.eqb message "" then Some w1
          else match classify lowered with
               | CmdHelp => Some (write_all c help_lines w1)
               | CmdTime => Some (cWrite c (time_reply now) w1)
               | CmdClients =>
                   if range_ok ord (clients w1)
                   then Some (write_all c (clients_reply (clients w1) ord) w1)
                   else None
               | CmdQuit =>
                   Some (goto c HDone (cClose c (cWrite c ("Goodbye!" +:+ LF) w1)))
               | CmdChat =>
                   Some (goto c (HSendMsg name (chat_line now name message)) w1)
               end) as Heq.
  { simpl. rewrite Ha. unfold handleConnection. by rewrite Hpc, Hscan. }
  split_and!.
  - intros He. rewrite Heq. by rewrite (proj2 (String.eqb_eq _ _) He).
  - intros Hne Hl. rewrite Heq, (proj2 (String.eqb_neq _ _) Hne).
    by rewrite Hl.
  - intros Hne Hl. rewrite Heq, (proj2 (String.eqb_neq _ _) Hne).
    by rewrite Hl.
  - intros Hne Hl Hr. rewrite Heq, (proj2 (String.eqb_neq _ _) Hne).
    rewrite Hl. simpl. by rewrite Hcl, Hr.
  - intros Hne Hl. rewrite Heq, (proj2 (String.eqb_neq _ _) Hne).
    by rewrite Hl.
  - intros Hcase w' Hs. apply Hstep in Hs.
    pose proof (handleConnection_kstep _ _ _ _ _ Ha Hs) as Hk.
    rewrite Heq in Hstep. clear Heq.
    assert (k_messages (control w') = k_messages (control w)
            ∧ k_history (control w') = k_history (control w)) as [??];
      [|done].
    inversion Hk as [| | | | | ? ? ? ? pc pc' _ Hpc' Hmv
                     | ? ? ? ? n _ Hpc' | ? ? ? ? n p _ Hpc' | | | | | | | | ];
      subst; simpl in *; try done.
    all: rewrite Hpc in Hpc'; simplify_eq.
  - intros Hne Hl. split.
    { rewrite Heq, (proj2 (String.eqb_neq _ _) Hne).
      by rewrite (classify_chat _ Hl). }
    intros Hroom now' ord'. eexists. cbn [step].
    change (alive (goto c _ w1)) with (alive w1). rewrite Hal, Ha.
    unfold handleConnection. simpl. rewrite lookup_insert_eq.
    rewrite Hm, bool_decide_eq_true_2 by done.
    split; [done|]. simpl. by rewrite Hhist, lookup_insert_eq.
Qed.

End interpreter.

(** ** Broadcasts *)

Lemma broadcastToAll_socks message excl order w c s :
  NoDup order → c ∈ order → Some c ≠ excl → socks w !! c = Some s →
  socks (broadcastToAll message excl order w) !! c = Some (sock_write message s).
Proof.
  intros Hnd Hin Hex Hs. unfold broadcastToAll.
  change (socks (fmt_Print message ?x)) with (socks x).
  rewrite broadcast_loop_socks by done.
  rewrite bool_decide_eq_true_2 by done. by rewrite Hs.
Qed.

Lemma broadcastToAll_outputs message excl order w :
  stdout (broadcastToAll message excl order w) = stdout w ++ [message]
  ∧ logger (broadcastToAll message excl order w) = logger w.
Proof.
  unfold broadcastToAll.
  destruct (broadcast_loop_outputs message excl order w) as [Ho Hl].
  simpl in *. by rewrite Ho, Hl.
Qed.

Lemma sock_write_writable message s :
  writable s = true → outbox (sock_write message s) = outbox s ++ [message].
Proof. unfold sock_write. by intros ->. Qed.

Lemma sock_write_failed message s :
  writable s = false → sock_write message s = s.
Proof. unfold sock_write. by intros ->. Qed.

(** C8, in the form that holds of the program. A broadcast attempts the write on every connection of
    the range that is not the excluded one: whatever happens to the other
    writes, a writable connection gets the message appended.  The result of
    each write is dropped: the skeleton of the program is untouched, nothing
    goes to the logger, and the standard output gets the message itself and
    nothing else. *)
Theorem C8_broadcast_best_effort (message : string) (excl : option Conn)
    (order : list Conn) (w : World) :
  NoDup order →
  let w' := broadcastToAll message excl order w in
  (∀ c s, c ∈ order → Some c ≠ excl → socks w !! c = Some s →
          socks w' !! c = Some (sock_write message s)
          ∧ (writable s = true → outbox (sock_write message s) = outbox s ++ [message]))
  ∧ control w' = control w
  ∧ logger w' = logger w
  ∧ stdout w' = stdout w ++ [message].
Proof.
  intros Hnd w'. split_and!.
  - intros c s Hin Hex Hs. split; [by apply broadcastToAll_socks|].
    apply sock_write_writable.
  - apply control_broadcastToAll.
  - apply broadcastToAll_outputs.
  - apply broadcastToAll_outputs.
Qed.

Section broadcasts.
Context `{!GoStrings}.



End broadcasts.

(** ** The [clients] reply *)

(** C9, in the form that holds of the program. For one and the same registry, two [clients] replies
    have the same header with the same count and the same closing line, and
    list the same names, each as often, in an order that each [range] picks
    for itself. *)
Theorem C9_clients_reply_up_to_order (m : gmap Conn string)
    (order1 order2 : list Conn) :
  range_ok order1 m = true → range_ok order2 m = true →
  ∃ header names1 names2,
    clients_reply m order1 = header :: names1 ++ [LF]
    ∧ clients_reply m order2 = header :: names2 ++ [LF]
    ∧ header = "Connected clients (" +:+ pretty (size m) +:+ "):" +:+ LF
    ∧ length names1 = size m
    ∧ names1 ≡ₚ names2.
Proof.
  intros H1 H2. unfold clients_reply. do 3 eexists. split_and!; try done.
  - rewrite length_fmap. apply range_ok_spec in H1 as [Hnd Hd].
    rewrite <-size_dom.
    change (size (dom m)) with (length (elements (dom m))).
    apply Permutation_length, NoDup_Permutation; [done|apply NoDup_elements|].
    intros c. by rewrite Hd, elem_of_elements.
  - apply fmap_Permutation. by eapply range_ok_Permutation.
Qed.

(** ** Handlers that have returned *)

(** Case analysis on a move of the skeleton, seen from connection [c0]. *)
Ltac kstep_cases Hs c0 :=
  inversion Hs; subst; clear Hs; simpl in *;
  try match goal with
      | H : k_handlers _ !! ?c = _ |- _ =>
          destruct (decide (c0 = c)) as [->|?];
          [ rewrite ?lookup_insert_eq
          | rewrite ?lookup_insert_ne by done ]
      end;
  try lazymatch goal with
      | H : local_move _ _ |- _ => inversion H; subst; clear H
      end;
  simpl in *;
  rewrite ?lookup_insert_eq, ?lookup_insert_ne, ?lookup_delete by done;
  repeat case_bool_decide; repeat case_decide; simplify_eq;
  try done; try (intuition congruence).

Lemma gone_unregistered_kstep c a k k' :
  gone_unregistered c k → kstep a k k' → gone_unregistered c k'.
Proof.
  unfold gone_unregistered. intros (Hpc & Hcl & Hev) Hs.
  kstep_cases Hs c.
Qed.

Lemma gone_registered_kstep c n past a k k' :
  gone_registered c n past k → kstep a k k' → gone_registered c n past k'.
Proof.
  unfold gone_registered. intros (Hpc & Hcl & Hco & Hev) Hs.
  kstep_cases Hs c.
Qed.

Lemma registered_not_left_kstep a k k' :
  (∀ c, is_Some (k_clients k !! c) ↔ registered_not_left c (k_history k) = true) →
  kstep a k k' →
  ∀ c, is_Some (k_clients k' !! c) ↔ registered_not_left c (k_history k') = true.
Proof.
  intros HI Hs c0. specialize (HI c0).
  inversion Hs; subst; clear Hs; simpl in *; try done.
  - destruct (decide (c = c0)) as [->|Hne].
    + rewrite bool_decide_eq_true_2, lookup_insert_eq by done. split; eauto.
    + by rewrite bool_decide_eq_false_2, lookup_insert_ne by done.
  - destruct (decide (conn = c0)) as [->|Hne].
    + rewrite bool_decide_eq_true_2, lookup_delete_eq by done.
      split; [by intros [? ?] | done].
    + by rewrite bool_decide_eq_false_2, lookup_delete_ne by done.
Qed.

(** The registry changes in two kinds of move only. *)
Lemma kstep_clients a k k' :
  kstep a k k' →
  k_clients k' = k_clients k
  ∨ (∃ c now ord name,
       a = AHandle c now ord ∧ k_handlers k !! c = Some (HRegister name)
       ∧ k_clients k' = <[c := name]> (k_clients k))
  ∨ (∃ ord conn,
       a = ACoord ord ∧ k_coord k = CLeave conn
       ∧ k_clients k' = delete conn (k_clients k)).
Proof.
  intros Hs. inversion Hs; subst; simpl; eauto 10.
Qed.

(** ** The registry *)

Section registry.
Context `{!GoStrings}.

(** C1, in the form that holds of the program. The registry has two writers: the handler of a
    connection, which inserts its own entry in its registration step,
    and the broadcaster, which deletes the entry of the connection whose
    Leave it handles.  No other step of the program changes it. *)
Theorem C1_registry_writers (a : Action) (w w' : World) :
  step a w = Some w' →
  clients w' = clients w
  ∨ (∃ c now ord name,
       a = AHandle c now ord ∧ handlers w !! c = Some (HRegister name)
       ∧ clients w' = <[c := name]> (clients w))
  ∨ (∃ ord conn,
       a = ACoord ord ∧ coord w = CLeave conn
       ∧ clients w' = delete conn (clients w)).
Proof. intros Hs%step_kstep. exact (kstep_clients _ _ _ Hs). Qed.

(** C3, in the form that holds of the program. At every point of every run, a connection is in the
    registry exactly when its handler has written its entry and the
    broadcaster has handled no Leave of it since. *)
Theorem C3_registry_tracks_writes (w : World) (c : Conn) :
  reachable w →
  (c ∈ dom (clients w) ↔ registered_not_left c (history w) = true).
Proof.
  intros Hr. rewrite elem_of_dom. revert c.
  apply (reachable_kinv
           (λ k, ∀ c, is_Some (k_clients k !! c)
                      ↔ registered_not_left c (k_history k) = true));
    [| apply registered_not_left_kstep | done].
  intros c. simpl. rewrite lookup_empty. split; [by intros [? ?] | done].
Qed.

(** C4, in the form that holds of the program. Draining closes no door: a handler that is waiting
    to hand over its Join while the server drains is taken by the
    broadcaster as soon as that one selects, and its next step puts it in
    the registry, with nothing written to its connection and the
    connection left open.  Only the exit of the process ends all steps. *)
Theorem C4_joins_until_exit (w : World) (c : Conn) (name : string)
    (now : Time) (ord : list Conn) :
  mainpc w = MDraining →
  handlers w !! c = Some (HSendJoin name) →
  coord w = CSelect →
  (∃ w1 w2, step (AJoin c) w = Some w1
            ∧ step (AHandle c now ord) w1 = Some w2
            ∧ clients w2 !! c = Some name
            ∧ socks w2 = socks w
            ∧ mainpc w2 = MDraining)
  ∧ ∀ v status a, mainpc v = MExited status → step a v = None.
Proof.
  intros Hm Hpc Hco. split.
  - do 2 eexists. split.
    { cbn [step]. unfold alive, join_step. by rewrite Hm, Hpc, Hco. }
    split.
    { cbn [step]. unfold alive, handleConnection. simpl.
      by rewrite Hm, lookup_insert_eq. }
    simpl. by rewrite lookup_insert_eq.
  - intros v status a Hv. destruct a; simpl; unfold alive, startServer;
      by rewrite Hv.
Qed.

Lemma handler_gone_forever c acts w w' :
  gone_unregistered c (control w) → run acts w = Some w' →
  gone_unregistered c (control w').
Proof.
  intros Hg Hrun.
  by apply (run_kinv (gone_unregistered c)
              (gone_unregistered_kstep c) acts w w').
Qed.

(** C10. When the first read fails, the handler closes the connection and
    returns without touching the registry, the channels or the
    broadcaster; the connection has produced no event before that, and in
    every continuation of the run it stays out of the registry and
    produces none. *)
Theorem C10_no_name_no_registration (w : World) (c : Conn) (now : Time)
    (ord : list Conn) :
  reachable w → alive w = true →
  handlers w !! c = Some HReadName →
  Scan c w = None →
  ∃ w', step (AHandle c now ord) w = Some w'
        ∧ handlers w' !! c = Some HDone
        ∧ socks w' = alter sock_close c (socks w)
        ∧ clients w' = clients w ∧ messages w' = messages w
        ∧ coord w' = coord w ∧ history w' = history w
        ∧ ∀ acts w'', run acts w' = Some w'' →
            handlers w'' !! c = Some HDone
            ∧ clients w'' !! c = None
            ∧ List.filter (emitted_by c) (history w'') = [].
Proof.
  intros Hr Ha Hpc Hscan. eexists. split.
  { cbn [step]. rewrite Ha. unfold handleConnection. by rewrite Hpc, Hscan. }
  split; [simpl; by rewrite lookup_insert_eq|].
  split_and!; try done.
  intros acts w'' Hrun.
  pose proof (reachable_kinv Inv Inv_init Inv_kstep w Hr c) as Hi.
  unfold pc_inv in Hi. simpl in Hi. rewrite Hpc in Hi.
  destruct Hi as (Hcl & _ & _ & Hev).
  change (gone_unregistered c (control w'')).
  eapply handler_gone_forever; [|exact Hrun].
  split_and!; [simpl; by rewrite lookup_insert_eq | done | done].
Qed.

(** After [quit] the handler returns through line 90, and line 98 is not
    run: the entry stays in the registry and no Leave of the connection is
    ever sent or handled. *)
Lemma quit_never_leaves (w w1 : World) (c : Conn) (name line : string)
    (now : Time) (ord : list Conn) :
  reachable w → alive w = true →
  handlers w !! c = Some (HLoop name) →
  Scan c w = Some (line, w1) →
  TrimSpace line ≠ "" → ToLower (TrimSpace line) = "quit" →
  let w' := goto c HDone (cClose c (cWrite c ("Goodbye!" +:+ LF) w1)) in
  step (AHandle c now ord) w = Some w'
  ∧ ∀ acts w'', run acts w' = Some w'' →
      handlers w'' !! c = Some HDone
      ∧ clients w'' !! c = Some name
      ∧ List.filter (leave_of c) (history w'') = [].
Proof.
  intros Hr Ha Hpc Hscan Hne Hq w'. split.
  { cbn [step]. rewrite Ha. unfold handleConnection. rewrite Hpc, Hscan.
    rewrite (proj2 (String.eqb_neq _ _) Hne). by rewrite Hq. }
  intros acts w'' Hrun.
  pose proof (reachable_kinv Inv Inv_init Inv_kstep w Hr c) as Hi.
  unfold pc_inv in Hi. simpl in Hi. rewrite Hpc in Hi.
  destruct Hi as (Hcl & Hco & Hev).
  assert (gone_registered c name [] (control w'')) as (? & ? & _ & ?);
    [|done].
  apply (run_kinv (gone_registered c name [])
           (gone_registered_kstep c name []) acts w' w''); [|done].
  unfold w'. autorewrite with control.
  rewrite (control_Scan _ _ _ _ Hscan).
  split_and!; [simpl; by rewrite lookup_insert_eq | done | done | done].
Qed.

End registry.

(** ** The claims at concrete runs *)

Lemma after_reachable acts :
  is_Some (run acts NewServer) → reachable (after acts).
Proof. intros [w Hw]. exists acts. unfold after. by rewrite Hw. Qed.

Lemma C1_registry_writers_witness :
  step (AHandle 1 noon []) join_received = Some alice_registered
  ∧ (clients alice_registered = clients join_received
     ∨ (∃ c now ord name,
          AHandle 1 noon [] = AHandle c now ord
          ∧ handlers join_received !! c = Some (HRegister name)
          ∧ clients alice_registered = <[c := name]> (clients join_received))
     ∨ (∃ ord conn,
          AHandle 1 noon [] = ACoord ord ∧ coord join_received = CLeave conn
          ∧ clients alice_registered = delete conn (clients join_received))).
Proof.
  assert (step (AHandle 1 noon []) join_received = Some alice_registered) as Hs
    by (vm_compute; reflexivity).
  split; [exact Hs | exact (C1_registry_writers _ _ _ Hs)].
Defined.

(** C1, as the specification states it, fails: the handler of connection 1,
    whose Join the broadcaster has received, runs line 60 and the registry
    goes from empty to holding Alice. *)
Lemma C1_counterexample :
  reachable join_received
  ∧ step (AHandle 1 noon []) join_received = Some alice_registered
  ∧ clients join_received !! 1 = None
  ∧ clients alice_registered !! 1 = Some "Alice"
  ∧ ¬ spec_single_writer.
Proof.
  assert (reachable join_received) as Hr
    by (apply after_reachable; vm_compute; eauto).
  assert (step (AHandle 1 noon []) join_received = Some alice_registered) as Hs
    by (vm_compute; reflexivity).
  split_and!; [exact Hr | exact Hs | vm_compute; reflexivity..|].
  intros Hspec. specialize (Hspec _ _ _ _ _ Hr Hs).
  apply (f_equal (λ m : gmap Conn string, m !! 1)) in Hspec.
  vm_compute in Hspec. discriminate.
Qed.

(** C2: the code at the failing input.  Alice is registered and sends
    [quit]: she gets the farewell, her connection is closed and her handler
    returns, but no Leave is sent: her entry is still in the registry, and
    in every continuation it stays there and no Leave of her connection is
    ever sent or handled. *)
Theorem C2_quit_skips_leave :
  reachable before_quit
  ∧ clients before_quit !! 1 = Some "Alice"
  ∧ step (AHandle 1 noon []) before_quit = Some after_quit
  ∧ written 1 before_quit after_quit = ["Goodbye!" +:+ LF]
  ∧ closed <$> (socks after_quit !! 1) = Some true
  ∧ handlers after_quit !! 1 = Some HDone
  ∧ clients after_quit !! 1 = Some "Alice"
  ∧ List.filter (leave_of 1) (history after_quit) = []
  ∧ ∀ acts w, run acts after_quit = Some w →
      handlers w !! 1 = Some HDone
      ∧ clients w !! 1 = Some "Alice"
      ∧ List.filter (leave_of 1) (history w) = [].
Proof.
  assert (reachable before_quit) as Hr
    by (apply after_reachable; vm_compute; eauto).
  split_and!; [exact Hr | vm_compute; reflexivity..|].
  intros acts w Hrun.
  assert (Scan 1 before_quit = Some ("quit", scanned 1 before_quit)) as Hscan
    by (vm_compute; reflexivity).
  assert (alive before_quit = true) as Ha by (vm_compute; reflexivity).
  assert (handlers before_quit !! 1 = Some (HLoop "Alice")) as Hpc
    by (vm_compute; reflexivity).
  assert (TrimSpace "quit" ≠ "") as Hne by (vm_compute; discriminate).
  assert (ToLower (TrimSpace "quit") = "quit") as Hq
    by (vm_compute; reflexivity).
  destruct (quit_never_leaves before_quit _ 1 "Alice" "quit" noon []
              Hr Ha Hpc Hscan Hne Hq) as [_ Hfuture].
  apply (Hfuture acts w).
  replace (goto 1 HDone _) with after_quit; [exact Hrun|].
  vm_compute. reflexivity.
Qed.

Lemma C3_registry_tracks_writes_witness :
  reachable before_quit
  ∧ (1 ∈ dom (clients before_quit)
     ↔ registered_not_left 1 (history before_quit) = true).
Proof.
  assert (reachable before_quit) as Hr
    by (apply after_reachable; vm_compute; eauto).
  split; [exact Hr | exact (C3_registry_tracks_writes _ 1 Hr)].
Defined.

(** C3, as the specification states it, fails: the broadcaster has handled
    the Join of connection 1 and no Leave, and the registry is empty,
    because the handler has not yet run line 60. *)
Lemma C3_counterexample :
  reachable join_handled
  ∧ history join_handled = [EvJoin 1; EvJoinSent 1]
  ∧ joined_not_left 1 (history join_handled) = true
  ∧ clients join_handled !! 1 = None
  ∧ ¬ spec_registry_invariant.
Proof.
  assert (reachable join_handled) as Hr
    by (apply after_reachable; vm_compute; eauto).
  split_and!; [exact Hr | vm_compute; reflexivity..|].
  intros Hspec. destruct (Hspec _ 1 Hr) as [_ Hin].
  apply elem_of_dom in Hin as [n Hn]; [|vm_compute; reflexivity].
  vm_compute in Hn. discriminate.
Qed.

Lemma C4_joins_until_exit_witness :
  mainpc draining = MDraining
  ∧ handlers draining !! 1 = Some (HSendJoin "Alice")
  ∧ coord draining = CSelect
  ∧ ∃ w1 w2, step (AJoin 1) draining = Some w1
             ∧ step (AHandle 1 noon []) w1 = Some w2
             ∧ clients w2 !! 1 = Some "Alice"
             ∧ socks w2 = socks draining
             ∧ mainpc w2 = MDraining.
Proof.
  assert (mainpc draining = MDraining) as H1 by (vm_compute; reflexivity).
  assert (handlers draining !! 1 = Some (HSendJoin "Alice")) as H2
    by (vm_compute; reflexivity).
  assert (coord draining = CSelect) as H3 by (vm_compute; reflexivity).
  split_and!; [exact H1 | exact H2 | exact H3 |].
  exact (proj1 (C4_joins_until_exit draining 1 "Alice" noon [] H1 H2 H3)).
Defined.

(** C4, as the specification states it, fails: the server is draining,
    and the handler of connection 1 still hands its Join over and writes
    its entry; nothing is written to the connection and it stays open. *)
Lemma C4_counterexample :
  reachable draining
  ∧ mainpc draining = MDraining
  ∧ handlers draining !! 1 = Some (HSendJoin "Alice")
  ∧ run [AJoin 1; AHandle 1 noon []] draining
    = Some (after (alice_named [] ++ [ASignal; AJoin 1; AHandle 1 noon []]))
  ∧ (let w := after (alice_named [] ++ [ASignal; AJoin 1; AHandle 1 noon []]) in
     clients w !! 1 = Some "Alice"
     ∧ written 1 draining w = []
     ∧ closed <$> (socks w !! 1) = Some false)
  ∧ ¬ spec_no_join_while_draining.
Proof.
  assert (reachable draining) as Hr
    by (apply after_reachable; vm_compute; eauto).
  assert (run [AJoin 1; AHandle 1 noon []] draining
          = Some (after (alice_named [] ++ [ASignal; AJoin 1; AHandle 1 noon []])))
    as Hrun by (vm_compute; reflexivity).
  assert (mainpc draining = MDraining) as Hm by (vm_compute; reflexivity).
  assert (handlers draining !! 1 = Some (HSendJoin "Alice")) as Hpc
    by (vm_compute; reflexivity).
  split_and!; [exact Hr | exact Hm | exact Hpc | exact Hrun
              | vm_compute; split_and!; reflexivity |].
  intros Hspec.
  specialize (Hspec draining 1 "Alice" _ _ Hr Hm Hpc Hrun).
  vm_compute in Hspec. discriminate.
Qed.


(** Scenario A of the specification: Alice says [hi] and, once the
    broadcaster has handled the message, Bob and Alice have both received
    the line. *)
Example chat_reaches_both :
  ∃ w, run [AHandle 1 noon []; AHandle 1 noon []; ARecv; ACoord [2; 1]]
         before_chat = Some w
       ∧ written 1 before_chat w = ["[12:00:07] Alice: hi" +:+ LF]
       ∧ written 2 before_chat w = ["[12:00:07] Alice: hi" +:+ LF].
Proof. eexists. split_and!; vm_compute; reflexivity. Qed.

Lemma C6_line_classification_witness :
  alive before_help = true
  ∧ handlers before_help !! 1 = Some (HLoop "Alice")
  ∧ Scan 1 before_help = Some ("  HeLP ", scanned 1 before_help)
  ∧ step (AHandle 1 noon []) before_help
    = Some (write_all 1 help_lines (scanned 1 before_help)).
Proof.
  assert (alive before_help = true) as H1 by (vm_compute; reflexivity).
  assert (handlers before_help !! 1 = Some (HLoop "Alice")) as H2
    by (vm_compute; reflexivity).
  assert (Scan 1 before_help = Some ("  HeLP ", scanned 1 before_help)) as H3
    by (vm_compute; reflexivity).
  split_and!; [exact H1 | exact H2 | exact H3 |].
  destruct (C6_line_classification before_help _ 1 "Alice" "  HeLP " noon []
              H1 H2 H3) as (_ & Hhelp & _).
  apply Hhelp; [vm_compute; discriminate | vm_compute; reflexivity].
Defined.


(** Scenario D of the specification: the signal arrives while Alice and Bob
    are connected; both get the notice, both connections are closed, and the
    process exits with status 0. *)
Example shutdown_notifies_both :
  ∃ w, run [ASignal; AShutdown [1; 2]] before_chat = Some w
       ∧ mainpc w = MExited 0
       ∧ written 1 before_chat w = ["Server is shutting down. Goodbye!" +:+ LF]
       ∧ written 2 before_chat w = ["Server is shutting down. Goodbye!" +:+ LF]
       ∧ closed <$> (socks w !! 1) = Some true
       ∧ closed <$> (socks w !! 2) = Some true.
Proof. eexists. split_and!; vm_compute; reflexivity. Qed.

Lemma C8_broadcast_best_effort_witness :
  NoDup [1; 2]
  ∧ logger (broadcastToAll "hi" None [1; 2] alice_quit) = logger alice_quit
  ∧ stdout (broadcastToAll "hi" None [1; 2] alice_quit)
    = stdout alice_quit ++ ["hi"].
Proof.
  assert (NoDup [1; 2]) as Hnd by (apply (bool_decide_unpack _); vm_compute; exact I).
  split; [exact Hnd|].
  destruct (C8_broadcast_best_effort "hi" None [1; 2] alice_quit Hnd)
    as (_ & _ & Hl & Ho).
  split; [exact Hl | exact Ho].
Defined.

(** C8, as the specification states it, fails: Alice has quit, so her
    connection is closed but still in the registry; a broadcast fails to
    write to it, Bob gets the message, and the failure appears nowhere: the
    logger is untouched and the standard output gets the message only. *)
Lemma C8_counterexample :
  reachable alice_quit
  ∧ (conn_Write 1 "hi" alice_quit).2 = false
  ∧ (let w := broadcastToAll "hi" None [1; 2] alice_quit in
     written 1 alice_quit w = []
     ∧ written 2 alice_quit w = ["hi"]
     ∧ logger w = logger alice_quit
     ∧ stdout w = stdout alice_quit ++ ["hi"])
  ∧ ¬ spec_failure_logged.
Proof.
  assert (reachable alice_quit) as Hr
    by (apply after_reachable; vm_compute; eauto).
  split_and!; [exact Hr | vm_compute; reflexivity
              | vm_compute; split_and!; reflexivity |].
  intros Hspec.
  destruct (Hspec alice_quit "hi" None [1; 2] 1 Hr) as [Hl|Ho].
  - apply list_elem_of_here.
  - discriminate.
  - vm_compute. reflexivity.
  - apply Hl. vm_compute. reflexivity.
  - apply Ho. vm_compute. reflexivity.
Qed.

Lemma C9_clients_reply_up_to_order_witness :
  range_ok [1; 2] (clients two_clients) = true
  ∧ range_ok [2; 1] (clients two_clients) = true
  ∧ ∃ header names1 names2,
      clients_reply (clients two_clients) [1; 2] = header :: names1 ++ [LF]
      ∧ clients_reply (clients two_clients) [2; 1] = header :: names2 ++ [LF]
      ∧ header = "Connected clients (" +:+ pretty (size (clients two_clients))
                 +:+ "):" +:+ LF
      ∧ length names1 = size (clients two_clients)
      ∧ names1 ≡ₚ names2.
Proof.
  assert (range_ok [1; 2] (clients two_clients) = true) as H1
    by (vm_compute; reflexivity).
  assert (range_ok [2; 1] (clients two_clients) = true) as H2
    by (vm_compute; reflexivity).
  split_and!; [exact H1 | exact H2 |].
  exact (C9_clients_reply_up_to_order _ _ _ H1 H2).
Defined.

(** C9, as the specification states it, fails: Alice asks for the list
    twice in a row, nothing happens in between, and the two ranges over the
    registry take different orders: the replies differ. *)
Lemma C9_counterexample :
  reachable two_clients
  ∧ step (AHandle 1 noon [1; 2]) two_clients = Some first_reply
  ∧ step (AHandle 1 noon [2; 1]) first_reply = Some second_reply
  ∧ clients second_reply = clients two_clients
  ∧ history second_reply = history two_clients
  ∧ written 1 two_clients first_reply
    = [ "Connected clients (2):" +:+ LF; "  - Alice" +:+ LF;
        "  - Bob" +:+ LF; LF ]
  ∧ written 1 first_reply second_reply
    = [ "Connected clients (2):" +:+ LF; "  - Bob" +:+ LF;
        "  - Alice" +:+ LF; LF ]
  ∧ ¬ spec_clients_idempotent.
Proof.
  assert (reachable two_clients) as Hr
    by (apply after_reachable; vm_compute; eauto).
  assert (step (AHandle 1 noon [1; 2]) two_clients = Some first_reply) as Hs1
    by (vm_compute; reflexivity).
  assert (step (AHandle 1 noon [2; 1]) first_reply = Some second_reply) as Hs2
    by (vm_compute; reflexivity).
  split_and!; [exact Hr | exact Hs1 | exact Hs2 | vm_compute; reflexivity..|].
  intros Hspec.
  assert (Scan 1 two_clients = Some ("clients", scanned 1 two_clients)) as Hc1
    by (vm_compute; reflexivity).
  assert (Scan 1 first_reply = Some ("clients", scanned 1 first_reply)) as Hc2
    by (vm_compute; reflexivity).
  assert (is_Some (socks two_clients !! 1)) as [s Hs] by (vm_compute; eauto).
  assert (is_Some (socks first_reply !! 1)) as [s1 Hsa] by (vm_compute; eauto).
  assert (is_Some (socks second_reply !! 1)) as [s2 Hsb] by (vm_compute; eauto).
  assert (handlers two_clients !! 1 = Some (HLoop "Alice")) as Hpc
    by (vm_compute; reflexivity).
  assert (ToLower (TrimSpace "clients") = "clients") as Hlow
    by (vm_compute; reflexivity).
  pose proof (Hspec two_clients 1 "Alice" [1; 2] [2; 1] noon noon _ _ _ _ _ _
                Hr Hpc Hc1 Hlow Hs1 Hc2 Hlow Hs2 s s1 s2 Hs Hsa Hsb)
    as Heq.
  assert (written 1 two_clients first_reply
          = written 1 first_reply second_reply) as Hw.
  { unfold written. rewrite Hs, Hsa, Hsb. exact Heq. }
  vm_compute in Hw. discriminate.
Qed.

Lemma C10_no_name_no_registration_witness :
  reachable silent_client
  ∧ alive silent_client = true
  ∧ handlers silent_client !! 1 = Some HReadName
  ∧ Scan 1 silent_client = None
  ∧ ∃ w', step (AHandle 1 noon []) silent_client = Some w'
          ∧ handlers w' !! 1 = Some HDone
          ∧ clients w' = clients silent_client
          ∧ history w' = history silent_client.
Proof.
  assert (reachable silent_client) as H1.
  { exists [AStart no_files None; AAccept 1 alice_addr []; AHandle 1 noon []].
    vm_compute. reflexivity. }
  assert (alive silent_client = true) as H2 by (vm_compute; reflexivity).
  assert (handlers silent_client !! 1 = Some HReadName) as H3
    by (vm_compute; reflexivity).
  assert (Scan 1 silent_client = None) as H4 by (vm_compute; reflexivity).
  split_and!; [exact H1 | exact H2 | exact H3 | exact H4 |].
  destruct (C10_no_name_no_registration silent_client 1 noon [] H1 H2 H3 H4)
    as (w' & Hs & Hd & _ & Hc & _ & _ & Hh & _).
  exists w'. split_and!; [exact Hs | exact Hd | exact Hc | exact Hh].
Defined.

(** * Further properties of the program *)

(** ** What a broadcast reaches *)

Lemma broadcastToAll_lookup message excl order w c :
  NoDup order →
  socks (broadcastToAll message excl order w) !! c
  = if bool_decide (c ∈ order ∧ Some c ≠ excl)
    then sock_write message <$> socks w !! c
    else socks w !! c.
Proof.
  intros Hnd. unfold broadcastToAll.
  change (socks (fmt_Print message ?x)) with (socks x).
  by apply broadcast_loop_socks.
Qed.

Lemma broadcastToAll_other message excl order w c :
  NoDup order → c ∉ order →
  socks (broadcastToAll message excl order w) !! c = socks w !! c.
Proof.
  intros Hnd Hc. rewrite broadcastToAll_lookup by done.
  rewrite bool_decide_eq_false_2; [done|]. naive_solver.
Qed.

Lemma broadcastToAll_excluded message order w c :
  NoDup order →
  socks (broadcastToAll message (Some c) order w) !! c = socks w !! c.
Proof.
  intros Hnd. rewrite broadcastToAll_lookup by done.
  rewrite bool_decide_eq_false_2; [done|]. naive_solver.
Qed.

Section announcements.
Context `{!GoStrings}.

(** X1. Handling a Join announces it to every connection of the registry
    but the joining one, whose socket is left as it was, and to the
    standard output; the registry is not changed.  The name in the
    announcement is the registry entry of the moment, and it is empty when
    the joining handler has not written its entry yet. *)
Theorem join_announced_to_others (w : World) (conn : Conn) (order : list Conn) :
  alive w = true → coord w = CJoin conn →
  range_ok order (clients w) = true →
  let msg := joined_msg (default "" (clients w !! conn)) in
  ∃ w', step (ACoord order) w = Some w'
        ∧ coord w' = CSelect
        ∧ clients w' = clients w
        ∧ (∀ c s, c ∈ dom (clients w) → c ≠ conn → socks w !! c = Some s →
                  socks w' !! c = Some (sock_write msg s))
        ∧ socks w' !! conn = socks w !! conn
        ∧ stdout w' = stdout w ++ [msg]
        ∧ history w' = EvJoin conn :: history w.
Proof.
  intros Ha Hc Hr msg. eexists. split.
  { cbn [step]. rewrite Ha. unfold broadcastMessages. by rewrite Hc, Hr. }
  apply range_ok_spec in Hr as [Hnd Hdom].
  split_and!; try done.
  - exact (f_equal k_clients (control_broadcastToAll _ _ order w)).
  - intros c s Hin Hne Hs.
    change (socks (with_coord _ (record _ ?x))) with (socks x).
    apply broadcastToAll_socks; [done | by apply Hdom | congruence | done].
  - change (socks (with_coord _ (record _ ?x))) with (socks x).
    by apply broadcastToAll_excluded.
  - apply broadcastToAll_outputs.
  - simpl. f_equal.
    exact (f_equal k_history (control_broadcastToAll _ _ order w)).
Qed.

(** X2. Which name a Join announcement carries depends on the race between
    the broadcaster and the joining handler: if the broadcaster handles
    the Join while the handler is still before its registry write, the
    announcement has an empty name; if the handler has written, it has the
    handler's name. *)
Theorem join_announcement_name (w : World) (conn : Conn) (name : string)
    (order : list Conn) :
  reachable w → alive w = true → coord w = CJoin conn →
  range_ok order (clients w) = true →
  ∃ w', step (ACoord order) w = Some w'
        ∧ (handlers w !! conn = Some (HRegister name) →
           stdout w' = stdout w ++ [joined_msg ""])
        ∧ (handlers w !! conn = Some (HLoop name) →
           stdout w' = stdout w ++ [joined_msg name]).
Proof.
  intros Hreach Ha Hc Hr.
  destruct (join_announced_to_others w conn order Ha Hc Hr)
    as (w' & Hs & _ & _ & _ & _ & Ho & _).
  exists w'. split; [done|].
  pose proof (reachable_kinv Inv Inv_init Inv_kstep w Hreach conn) as Hi.
  unfold pc_inv in Hi. simpl in Hi.
  split; intros Hpc; rewrite Hpc in Hi; destruct Hi as (Hcl & _);
    by rewrite Ho, Hcl.
Qed.



(** Handling the Leave of a connection that is not in the registry would
    do nothing but return to the [select]: no socket is written, nothing
    is printed or logged, and the registry is as before, for any order. *)
Lemma leave_of_absent_is_silent (w : World) (conn : Conn) (order : list Conn) :
  alive w = true → coord w = CLeave conn →
  clients w !! conn = None →
  ∃ w', step (ACoord order) w = Some w'
        ∧ coord w' = CSelect
        ∧ clients w' = clients w ∧ socks w' = socks w
        ∧ stdout w' = stdout w ∧ logger w' = logger w
        ∧ messages w' = messages w.
Proof.
  intros Ha Hc Hn. eexists. split.
  { cbn [step]. rewrite Ha. unfold broadcastMessages. by rewrite Hc, Hn. }
  by split_and!.
Qed.

(** X9. No step of the broadcaster writes to a connection that is not in
    the registry: the sockets of all other connections are untouched. *)
Theorem broadcast_only_to_registered (w w' : World) (order : list Conn) (c : Conn) :
  step (ACoord order) w = Some w' →
  c ∉ dom (clients w) →
  socks w' !! c = socks w !! c.
Proof.
  cbn [step]. destruct (alive w); [|done].
  unfold broadcastMessages. intros Hs Hc.
  destruct (coord w) as [|conn|conn|m]; [done|..].
  - destruct (range_ok order (clients w)) eqn:Hr; [|done].
    apply range_ok_spec in Hr as [Hnd Hdom]. injection Hs as <-.
    change (socks (with_coord _ (record _ ?x))) with (socks x).
    apply broadcastToAll_other; [done|]. by rewrite Hdom.
  - destruct (clients w !! conn) as [n|] eqn:Hn.
    + cbn [clients with_clients] in Hs.
      destruct (range_ok order (delete conn (clients w))) eqn:Hr; [|done].
      apply range_ok_spec in Hr as [Hnd Hdom]. injection Hs as <-.
      change (socks (with_coord _ (record _ ?x))) with (socks x).
      rewrite broadcastToAll_other; [done | done |].
      rewrite Hdom, dom_delete_L. set_solver.
    + by injection Hs as <-.
  - destruct (range_ok order (clients w)) eqn:Hr; [|done].
    apply range_ok_spec in Hr as [Hnd Hdom]. injection Hs as <-.
    change (socks (with_coord _ (record _ ?x))) with (socks x).
    apply broadcastToAll_other; [done|]. by rewrite Hdom.
Qed.

End announcements.

(** ** Registration and departure, end to end *)

Lemma Scan_RemoteAddr c w line w1 c' :
  Scan c w = Some (line, w1) → RemoteAddr c' w1 = RemoteAddr c' w.
Proof.
  unfold Scan, RemoteAddr. intros Hs.
  destruct (socks w !! c) as [s|] eqn:Hc; [|done].
  destruct (closed s || broken s); [done|].
  destruct (inbox s); [done|]. injection Hs as _ <-. simpl.
  destruct (decide (c' = c)) as [->|Hne].
  - by rewrite lookup_insert_eq, Hc.
  - by rewrite lookup_insert_ne.
Qed.

Lemma Scan_socks_other c w line w1 c' :
  Scan c w = Some (line, w1) → c' ≠ c → socks w1 !! c' = socks w !! c'.
Proof.
  unfold Scan. intros Hs Hne.
  destruct (socks w !! c) as [s|] eqn:Hc; [|done].
  destruct (closed s || broken s); [done|].
  destruct (inbox s); [done|]. injection Hs as _ <-. simpl.
  by rewrite lookup_insert_ne.
Qed.

Section lifecycle.
Context `{!GoStrings}.

(** X5. A client whose first line is read registers under that line
    trimmed, or under its remote address when nothing is left of the line:
    once the broadcaster takes the Join, the handler's next step puts
    exactly that entry in the registry, after the Join was handed over. *)
Theorem registers_under_display_name (w w1 : World) (c : Conn) (line : string)
    (now : Time) (ord : list Conn) :
  alive w = true →
  handlers w !! c = Some HReadName →
  Scan c w = Some (line, w1) →
  coord w = CSelect →
  let name := display_name line (RemoteAddr c w) in
  ∃ w', run [AHandle c now ord; AJoin c; AHandle c now ord] w = Some w'
        ∧ clients w' = <[c := name]> (clients w)
        ∧ handlers w' !! c = Some (HLoop name)
        ∧ coord w' = CJoin c
        ∧ history w' = EvRegistered c name :: EvJoinSent c :: history w.
Proof.
  intros Ha Hpc Hscan Hco name.
  destruct (Scan_clients _ _ _ _ Hscan) as (Hcl & Hh & Hm & Hhist & Hal).
  pose proof (control_Scan _ _ _ _ Hscan) as Hk.
  assert (coord w1 = CSelect) as Hco1
    by (rewrite <-Hco; exact (f_equal k_coord Hk)).
  assert (step (AHandle c now ord) w = Some (goto c (HSendJoin name) w1)) as H1.
  { cbn [step]. rewrite Ha. unfold handleConnection. rewrite Hpc, Hscan.
    unfold name, display_name. by rewrite (Scan_RemoteAddr _ _ _ _ c Hscan). }
  eexists. split.
  { cbn [run]. rewrite H1. cbn [step].
    change (alive (goto c _ w1)) with (alive w1). rewrite Hal, Ha.
    unfold join_step. simpl. rewrite lookup_insert_eq, Hco1.
    unfold alive. simpl. fold (alive w1). rewrite Hal, Ha.
    unfold handleConnection. simpl. by rewrite lookup_insert_eq. }
  simpl. rewrite Hcl, Hhist, lookup_insert_eq. done.
Qed.


(** X13. The reply to [clients] always lists the client that asks: in
    every reachable state its own name is among the lines written and the
    count is at least one; when it is the only client, the reply is the
    header with count 1, its name and the empty line. *)
Theorem clients_lists_the_requester (w w1 : World) (c : Conn) (name line : string)
    (now : Time) (ord : list Conn) :
  reachable w → alive w = true →
  handlers w !! c = Some (HLoop name) →
  Scan c w = Some (line, w1) →
  TrimSpace line ≠ "" → ToLower (TrimSpace line) = "clients" →
  range_ok ord (clients w) = true →
  let reply := clients_reply (clients w) ord in
  step (AHandle c now ord) w = Some (write_all c reply w1)
  ∧ ("  - " +:+ name +:+ LF) ∈ reply
  ∧ 1 ≤ size (clients w)
  ∧ (size (clients w) = 1 →
     reply = [ "Connected clients (1):" +:+ LF; "  - " +:+ name +:+ LF; LF ]).
Proof.
  intros Hreach Ha Hpc Hscan Hne Hl Hr reply.
  pose proof (reachable_kinv Inv Inv_init Inv_kstep w Hreach c) as Hi.
  unfold pc_inv in Hi. simpl in Hi. rewrite Hpc in Hi.
  destruct Hi as (Hcl & _ & _).
  destruct (C6_line_classification w w1 c name line now ord Ha Hpc Hscan)
    as (_ & _ & _ & Hclients & _).
  pose proof (Hr) as [Hnd Hdom]%range_ok_spec.
  assert (c ∈ ord) as Hin by (apply Hdom, elem_of_dom; eauto).
  split_and!.
  - by apply Hclients.
  - unfold reply, clients_reply. apply elem_of_cons. right.
    apply elem_of_app. left. apply list_elem_of_fmap. exists c.
    split; [|done]. unfold clients_at. by rewrite Hcl.
  - destruct (decide (size (clients w) = 0)) as [H0|]; [|lia].
    apply map_size_empty_inv in H0. rewrite H0 in Hcl. done.
  - intros H1. assert (ord = [c]) as ->.
    { rewrite <-size_dom in H1. apply size_1_elem_of in H1 as [x Hx].
      assert (c ∈ dom (clients w)) as Hc by (apply elem_of_dom; eauto).
      rewrite Hx in Hc. apply elem_of_singleton in Hc as ->.
      apply Permutation_singleton_r, NoDup_Permutation;
        [done | apply NoDup_singleton |].
      intros y. by rewrite Hdom, Hx, elem_of_singleton, list_elem_of_singleton. }
    unfold reply, clients_reply, clients_at. simpl. by rewrite H1, Hcl.
Qed.

End lifecycle.

(** ** The message queue *)


Lemma sent_payloads_cons e h :
  sent_payloads (e :: h)
  = sent_payloads h ++ match e with EvMsgSent _ p => [p] | _ => [] end.
Proof.
  unfold sent_payloads. simpl. rewrite omap_app. f_equal. by destruct e.
Qed.

Lemma handled_payloads_cons e h :
  handled_payloads (e :: h)
  = handled_payloads h ++ match e with EvMessage p => [p] | _ => [] end.
Proof.
  unfold handled_payloads. simpl. rewrite omap_app. f_equal. by destruct e.
Qed.

Lemma fifo_kstep a k k' : fifo k → kstep a k k' → fifo k'.
Proof.
  unfold fifo. intros [Hinit Hf] Hs.
  inversion Hs; subst; unfold k_alive in *; simpl in *;
    rewrite ?sent_payloads_cons, ?handled_payloads_cons, ?app_nil_r.
  all: split;
    [ intros Hm;
      first [ by destruct (Hinit Hm)
            | split; [done | by apply Hinit]
            | exfalso; intuition congruence ] |].
  all: try (destruct (Hinit ltac:(done)) as [Hc _]; by rewrite Hc in Hf).
  all: repeat match goal with
         | Hc : k_coord _ = _ |- _ => rewrite Hc in Hf; clear Hc
         | Hq : k_messages _ = _ :: _ |- _ => rewrite Hq in Hf; clear Hq
         end.
  all: simpl in Hf; rewrite ?Hf, <-?app_assoc; try done.
Qed.

Section queue.
Context `{!GoStrings}.


(** X8. Chat payloads are neither lost, duplicated nor reordered between
    the handlers and the broadcaster: in every reachable state the
    payloads queued so far, in the order of the sends, are those already
    broadcast, then the one being broadcast, then those still queued. *)
Theorem messages_in_send_order (w : World) :
  reachable w →
  sent_payloads (history w)
  = handled_payloads (history w) ++ in_flight (coord w) ++ messages w.
Proof.
  intros Hr.
  apply (reachable_kinv fifo); [done | apply fifo_kstep | done].
Qed.

End queue.

(** ** What a handler touches *)

Lemma cWrite_socks_other c msg w c' :
  c' ≠ c → socks (cWrite c msg w) !! c' = socks w !! c'.
Proof. intros Hne. by rewrite socks_cWrite, lookup_alter_ne. Qed.

Lemma write_all_socks_other c chunks w c' :
  c' ≠ c → socks (write_all c chunks w) !! c' = socks w !! c'.
Proof.
  intros Hne. unfold write_all. revert w.
  induction chunks as [|x xs IH]; intros w; simpl; [done|].
  by rewrite IH, cWrite_socks_other.
Qed.

Section own_connection.
Context `{!GoStrings}.

(** X10. A step of the handler of [c] reads and writes the connection [c]
    only: whatever the command, the sockets of all other connections are
    as before. *)
Theorem handler_touches_own_socket_only (w w' : World) (c c' : Conn)
    (now : Time) (ord : list Conn) :
  step (AHandle c now ord) w = Some w' →
  c' ≠ c →
  socks w' !! c' = socks w !! c'.
Proof.
  cbn [step]. destruct (alive w); [|done].
  unfold handleConnection. intros Hs Hne.
  destruct (handlers w !! c) as [[]|]; try done.
  - injection Hs as <-. simpl. by rewrite !cWrite_socks_other.
  - destruct (Scan c w) as [[text w1]|] eqn:Hscan; injection Hs as <-; simpl.
    + by eapply Scan_socks_other.
    + by rewrite lookup_alter_ne.
  - by injection Hs as <-.
  - destruct (Scan c w) as [[text w1]|] eqn:Hscan; [|by injection Hs as <-].
    pose proof (Scan_socks_other _ _ _ _ c' Hscan Hne) as Ho.
    destruct (String.eqb (TrimSpace text) ""); [by injection Hs as <-|].
    destruct (classify (ToLower (TrimSpace text))).
    + injection Hs as <-. by rewrite !cWrite_socks_other.
    + injection Hs as <-. by rewrite cWrite_socks_other.
    + destruct (range_ok ord (clients w1)); [|done].
      injection Hs as <-.
      by rewrite write_all_socks_other, cWrite_socks_other.
    + injection Hs as <-. simpl.
      by rewrite lookup_alter_ne, cWrite_socks_other.
    + by injection Hs as <-.
  - case_bool_decide; [|done]. by injection Hs as <-.
  - injection Hs as <-. simpl. by rewrite lookup_alter_ne.
Qed.


(** X14. [getBoardInfo] answers with the trimmed content of the first of
    its three files that can be read, whatever the later ones hold and
    even if nothing is left after trimming, and with the fixed text when
    none can be read. *)
Theorem getBoardInfo_first_readable (ReadFile : string → option string) :
  (∀ i file data,
     boardFiles !! i = Some file → ReadFile file = Some data →
     (∀ j earlier, j < i → boardFiles !! j = Some earlier →
                   ReadFile earlier = None) →
     getBoardInfo ReadFile = TrimSpace data)
  ∧ ((∀ file, file ∈ boardFiles → ReadFile file = None) →
     getBoardInfo ReadFile = "Unknown RISC-V Board").
Proof.
  split.
  - intros i file data Hi Hread Hearlier. unfold getBoardInfo, boardFiles in *.
    destruct i as [|[|[|i]]]; simpl in Hi; [| | |done]; simplify_eq.
    + simpl. by rewrite Hread.
    + simpl. rewrite (Hearlier 0 _ ltac:(lia) eq_refl). simpl.
      by rewrite Hread.
    + simpl. rewrite (Hearlier 0 _ ltac:(lia) eq_refl). simpl.
      rewrite (Hearlier 1 _ ltac:(lia) eq_refl). simpl.
      by rewrite Hread.
  - intros Hnone. unfold getBoardInfo, boardFiles in *. simpl.
    rewrite !Hnone; [done|set_solver..].
Qed.

End own_connection.

(** ** One Join and one Leave per connection *)

Lemma count_ev_cons P e h :
  count_ev P (e :: h) = (if P e then 1 else 0) + count_ev P h.
Proof. unfold count_ev. simpl. by destruct (P e). Qed.

Lemma Discipline_kstep a k k' : Discipline k → kstep a k k' → Discipline k'.
Proof.
  intros [Hinit HD] Hs. split.
  { inversion Hs; subst; unfold k_alive in *; simpl in *;
      intros Hm; first [ done | by apply Hinit | exfalso; intuition congruence ]. }
  intros c0. pose proof (HD c0) as H0. unfold discipline in *.
  inversion Hs; subst; clear Hs; unfold k_alive in *; simpl in *;
    rewrite ?count_ev_cons; simpl.
  all: try match goal with
       | H : k_handlers _ !! ?c = _ |- _ =>
           destruct (decide (c0 = c)) as [->|Hne];
           [ rewrite ?lookup_insert_eq; rewrite H in H0
           | rewrite ?lookup_insert_ne by done ]
       end.
  all: try lazymatch goal with
       | H : local_move _ _ |- _ => inversion H; subst; clear H
       end.
  all: repeat match goal with
       | Hc : k_coord _ = _ |- _ => rewrite Hc in H0; clear Hc
       | Hc : k_mainpc _ = MInit |- _ =>
           let Hx := fresh in
           pose proof (Hinit Hc) as Hx; rewrite Hx in H0; clear Hc
       end.
  all: simpl in *.
  all: rewrite ?bool_decide_eq_true_2 in * by done.
  all: rewrite ?bool_decide_eq_false_2 in * by done.
  all: try lia.
  all: try (match goal with
            | |- context [k_handlers ?k !! ?c] =>
                destruct (k_handlers k !! c) as [[]|]
            end;
            repeat case_bool_decide; simplify_eq; simpl in *; lia).
Qed.

Section discipline.
Context `{!GoStrings}.

(** X15. In every reachable state and for every connection: at most one
    Join is handed over, at most one registry entry is written and only
    after the Join was taken, at most one Leave is handed over and only
    by a connection that registered; and the broadcaster handles only
    Joins and Leaves that were handed over, each at most once. *)
Theorem one_join_one_leave (w : World) (c : Conn) :
  reachable w →
  let h := history w in
  count_ev (is_join_sent c) h ≤ 1
  ∧ count_ev (is_registered c) h ≤ count_ev (is_join_sent c) h
  ∧ count_ev (is_leave_sent c) h ≤ count_ev (is_registered c) h
  ∧ count_ev (is_join_handled c) h ≤ count_ev (is_join_sent c) h
  ∧ count_ev (is_leave_handled c) h ≤ count_ev (is_leave_sent c) h.
Proof.
  intros Hr h.
  assert (Discipline (control w)) as [_ HD].
  { apply (reachable_kinv Discipline); [|apply Discipline_kstep|done].
    split; [done|]. intros c'. unfold discipline. simpl.
    by rewrite lookup_empty. }
  specialize (HD c). unfold discipline in HD. simpl in HD. fold h in HD.
  destruct HD as (HJ & HL & Hpc).
  destruct (handlers w !! c) as [[]|]; lia.
Qed.

End discipline.

(** ** Closed connections *)

Lemma closed_with_frame c out w w' :
  socks w' = socks w → closed_with c out w → closed_with c out w'.
Proof. unfold closed_with. by intros ->. Qed.

Lemma closed_with_alter (f : Socket → Socket) c' c out w :
  (∀ s, closed s = true → closed (f s) = true ∧ outbox (f s) = outbox s) →
  closed_with c out w →
  closed_with c out (with_socks (alter f c' (socks w)) w).
Proof.
  intros Hf (s & Hs & Hc & Ho). unfold closed_with. simpl.
  destruct (decide (c = c')) as [->|Hne].
  - exists (f s). rewrite lookup_alter_eq, Hs. simpl.
    destruct (Hf s Hc) as [? ?]. split_and!; congruence.
  - exists s. by rewrite lookup_alter_ne.
Qed.

Lemma closed_with_cWrite c' msg c out w :
  closed_with c out w → closed_with c out (cWrite c' msg w).
Proof.
  intros Hc.
  apply (closed_with_frame c out
           (with_socks (alter (sock_write msg) c' (socks w)) w));
    [by rewrite socks_cWrite|].
  apply closed_with_alter; [|done].
  intros s Hs. unfold sock_write, writable. by rewrite Hs.
Qed.

Lemma closed_with_cClose c' c out w :
  closed_with c out w → closed_with c out (cClose c' w).
Proof. apply closed_with_alter. by intros s Hs. Qed.

Lemma closed_with_write_all c' chunks c out w :
  closed_with c out w → closed_with c out (write_all c' chunks w).
Proof.
  unfold write_all. revert w.
  induction chunks as [|x xs IH]; intros w Hc; simpl; [done|].
  by apply IH, closed_with_cWrite.
Qed.

Lemma closed_with_broadcastToAll message excl order c out w :
  closed_with c out w → closed_with c out (broadcastToAll message excl order w).
Proof.
  unfold broadcastToAll. intros Hc.
  apply (closed_with_frame c out
           (foldl (λ acc conn,
                     if bool_decide (Some conn ≠ excl)
                     then cWrite conn message acc else acc) w order));
    [done|].
  revert w Hc. induction order as [|x xs IH]; intros w Hc; simpl; [done|].
  apply IH. case_bool_decide; [by apply closed_with_cWrite | done].
Qed.

Lemma closed_with_shutdown_loop notice order c out w :
  closed_with c out w →
  closed_with c out
    (foldl (λ acc conn, cClose conn (cWrite conn notice acc)) w order).
Proof.
  revert w. induction order as [|x xs IH]; intros w Hc; simpl; [done|].
  by apply IH, closed_with_cClose, closed_with_cWrite.
Qed.

Lemma closed_with_Scan c' w line w1 c out :
  Scan c' w = Some (line, w1) → closed_with c out w → closed_with c out w1.
Proof.
  unfold Scan. intros Hscan (s & Hs & Hc & Ho).
  destruct (socks w !! c') as [s'|] eqn:Hs'; [|done].
  destruct (closed s' || broken s') eqn:Hcb; [done|].
  destruct (inbox s'); [done|]. injection Hscan as _ <-.
  exists s. simpl. rewrite lookup_insert_ne; [done|].
  intros ->. rewrite Hs in Hs'. injection Hs' as <-.
  by rewrite Hc in Hcb.
Qed.

Lemma closed_with_goto c' pc c out w :
  closed_with c out w → closed_with c out (goto c' pc w).
Proof. done. Qed.
Lemma closed_with_fmt_Print line c out w :
  closed_with c out w → closed_with c out (fmt_Print line w).
Proof. done. Qed.
Lemma closed_with_log_Printf line c out w :
  closed_with c out w → closed_with c out (log_Printf line w).
Proof. done. Qed.
Lemma closed_with_record e c out w :
  closed_with c out w → closed_with c out (record e w).
Proof. done. Qed.
Lemma closed_with_with_clients m c out w :
  closed_with c out w → closed_with c out (with_clients m w).
Proof. done. Qed.
Lemma closed_with_with_messages q c out w :
  closed_with c out w → closed_with c out (with_messages q w).
Proof. done. Qed.
Lemma closed_with_with_coord p c out w :
  closed_with c out w → closed_with c out (with_coord p w).
Proof. done. Qed.
Lemma closed_with_with_mainpc p c out w :
  closed_with c out w → closed_with c out (with_mainpc p w).
Proof. done. Qed.

(** Peels the operations of a step off a goal [closed_with c out _]. *)
Ltac closed_with_ops :=
  repeat first
    [ assumption
    | apply closed_with_goto | apply closed_with_fmt_Print
    | apply closed_with_log_Printf | apply closed_with_record
    | apply closed_with_with_clients | apply closed_with_with_messages
    | apply closed_with_with_coord | apply closed_with_with_mainpc
    | apply closed_with_cWrite | apply closed_with_cClose
    | apply closed_with_write_all | apply closed_with_broadcastToAll
    | apply closed_with_shutdown_loop ].

Section closed_connections.
Context `{!GoStrings}.

Lemma closed_with_handleConnection c' now ord w w' c out :
  handleConnection c' now ord w = Some w' →
  closed_with c out w → closed_with c out w'.
Proof.
  unfold handleConnection. intros Hs Hc.
  destruct (handlers w !! c') as [[]|]; try done.
  - injection Hs as <-. closed_with_ops.
  - destruct (Scan c' w) as [[text w1]|] eqn:Hscan; injection Hs as <-.
    + pose proof (closed_with_Scan _ _ _ _ c out Hscan Hc). closed_with_ops.
    + closed_with_ops.
  - injection Hs as <-. closed_with_ops.
  - destruct (Scan c' w) as [[text w1]|] eqn:Hscan;
      [|injection Hs as <-; closed_with_ops].
    pose proof (closed_with_Scan _ _ _ _ c out Hscan Hc) as Hc1.
    destruct (String.eqb (TrimSpace text) ""); [by injection Hs as <-|].
    destruct (classify (ToLower (TrimSpace text))).
    + injection Hs as Hw. rewrite <-Hw. closed_with_ops.
    + injection Hs as <-. closed_with_ops.
    + destruct (range_ok ord (clients w1)); [|done].
      injection Hs as Hw. rewrite <-Hw. closed_with_ops.
    + injection Hs as <-. closed_with_ops.
    + injection Hs as <-. closed_with_ops.
  - case_bool_decide; [|done]. injection Hs as <-. closed_with_ops.
  - injection Hs as <-. closed_with_ops.
Qed.

Lemma closed_with_broadcastMessages order w w' c out :
  broadcastMessages order w = Some w' →
  closed_with c out w → closed_with c out w'.
Proof.
  unfold broadcastMessages. intros Hs Hc.
  destruct (coord w) as [|conn|conn|m]; [done|..].
  - destruct (range_ok order (clients w)); [|done]. injection Hs as <-.
    closed_with_ops.
  - destruct (clients w !! conn) as [n|].
    + destruct (range_ok order _); [|done]. injection Hs as <-.
      closed_with_ops.
    + injection Hs as <-. closed_with_ops.
  - destruct (range_ok order (clients w)); [|done]. injection Hs as <-.
    closed_with_ops.
Qed.

Lemma closed_with_step a w w' c out :
  step a w = Some w' → closed_with c out w → closed_with c out w'.
Proof.
  intros Hs Hc. destruct a; cbn [step] in Hs.
  - unfold startServer in Hs. destruct (mainpc w); try done.
    destruct listen; injection Hs as <-; closed_with_ops.
  - destruct (alive w); [|done]. unfold accept_step in Hs.
    destruct (handlers w !! c0); [done|].
    destruct (socks w !! c0) eqn:Hc0; [done|]. injection Hs as <-.
    destruct Hc as (s0 & Hs0 & Hcl & Ho). exists s0. simpl.
    rewrite lookup_insert_ne; [done|]. intros ->. congruence.
  - destruct (alive w); [|done]. injection Hs as <-. closed_with_ops.
  - destruct (alive w); [|done]. unfold reset_step in Hs.
    destruct (socks w !! c0); [|done]. injection Hs as <-.
    apply closed_with_alter; [|done]. by intros s0 Hs0.
  - destruct (alive w); [|done]. by eapply closed_with_handleConnection.
  - destruct (alive w); [|done]. unfold join_step in Hs.
    destruct (handlers w !! c0) as [[]|]; try done.
    destruct (coord w); try done. injection Hs as <-. closed_with_ops.
  - destruct (alive w); [|done]. unfold leave_step in Hs.
    destruct (handlers w !! c0) as [[]|]; try done.
    destruct (coord w); try done. injection Hs as <-. closed_with_ops.
  - destruct (alive w); [|done]. unfold recv_step in Hs.
    destruct (coord w); try done. destruct (messages w); try done.
    injection Hs as <-. closed_with_ops.
  - destruct (alive w); [|done]. by eapply closed_with_broadcastMessages.
  - destruct (alive w); [|done]. unfold startServer_signal in Hs.
    destruct (mainpc w); try done. injection Hs as <-. closed_with_ops.
  - destruct (alive w); [|done]. unfold startServer_shutdown in Hs.
    destruct (mainpc w); try done.
    destruct (range_ok order (clients w)); [|done]. injection Hs as <-.
    closed_with_ops.
Qed.

(** X11. Once a connection has been closed by the server (after [quit],
    at the end of its handler, or by the shutdown loop) it stays closed,
    and no later step of any goroutine gets anything written to it: every
    later write to it fails. *)
Theorem closed_connection_stays_silent (w w' : World) (c : Conn) (s : Socket)
    (acts : list Action) :
  socks w !! c = Some s → closed s = true →
  run acts w = Some w' →
  ∃ s', socks w' !! c = Some s'
        ∧ closed s' = true
        ∧ outbox s' = outbox s
        ∧ ∀ msg, (conn_Write c msg w').2 = false.
Proof.
  intros Hs Hc Hrun.
  assert (closed_with c (outbox s) w') as (s' & Hs' & Hc' & Ho').
  { assert (closed_with c (outbox s) w) as Hcw by (by exists s).
    clear Hs Hc. revert w Hcw Hrun.
    induction acts as [|a acts IH]; intros w Hcw Hrun; simpl in Hrun.
    - by injection Hrun as <-.
    - destruct (step a w) as [w1|] eqn:Hstep; [|done].
      eapply IH; [|done]. by eapply closed_with_step. }
  exists s'. split_and!; try done.
  intros msg. unfold conn_Write. rewrite Hs'. simpl.
  unfold writable. by rewrite Hc'.
Qed.

End closed_connections.

(** ** The guard of the Leave case *)

Lemma leave_finds_entry_kstep a k k' :
  Inv k →
  (∀ c, k_coord k = CLeave c → is_Some (k_clients k !! c)) →
  kstep a k k' →
  ∀ c, k_coord k' = CLeave c → is_Some (k_clients k' !! c).
Proof.
  intros HI HL Hs c Hc.
  inversion Hs; subst; simpl in *; try done; try (by apply HL).
  - rewrite lookup_insert_is_Some. destruct (decide (c0 = c)); [by left|].
    right. split; [done|]. by apply HL.
  - injection Hc as ->. pose proof (HI c) as Hi. unfold pc_inv in Hi.
    match goal with H : k_handlers _ !! c = _ |- _ => rewrite H in Hi end.
    destruct Hi as (-> & _). eauto.
Qed.

Section leave_guard.
Context `{!GoStrings}.

(** X4. Whenever the broadcaster holds a Leave, the connection it names
    is in the registry: the test of line 110 never fails in a run of the
    program, so every Leave that is handed over is announced. *)
Theorem leave_always_finds_entry (w : World) (conn : Conn) :
  reachable w → coord w = CLeave conn →
  ∃ clientName, clients w !! conn = Some clientName.
Proof.
  intros Hr Hc.
  assert (Inv (control w)
          ∧ ∀ c, k_coord (control w) = CLeave c
                 → is_Some (k_clients (control w) !! c)) as [_ HL].
  { apply (reachable_kinv
             (λ k, Inv k ∧ ∀ c, k_coord k = CLeave c
                                → is_Some (k_clients k !! c))); [| |done].
    - split; [apply Inv_init | done].
    - intros a k k' [HI HL] Hs. split; [by eapply Inv_kstep|].
      by eapply leave_finds_entry_kstep. }
  by apply HL.
Qed.

End leave_guard.

(** ** Connections outside the registry *)

Section unregistered.
Context `{!GoStrings}.

(** X16. A client that has not completed its registration gets no chat
    traffic: while its handler is anywhere before its registry write, no
    step of the broadcaster changes its socket. *)
Theorem no_traffic_before_registration (w w' : World) (c : Conn)
    (pc : HandlerPC) (order : list Conn) :
  reachable w →
  handlers w !! c = Some pc →
  (pc = HStart ∨ pc = HReadName
   ∨ (∃ n, pc = HSendJoin n) ∨ (∃ n, pc = HRegister n)) →
  step (ACoord order) w = Some w' →
  socks w' !! c = socks w !! c.
Proof.
  intros Hr Hpc Hearly Hs.
  apply (broadcast_only_to_registered w w' order c Hs).
  pose proof (reachable_kinv Inv Inv_init Inv_kstep w Hr c) as Hi.
  unfold pc_inv in Hi. simpl in Hi. rewrite Hpc in Hi.
  apply not_elem_of_dom.
  destruct Hearly as [->|[->|[[n ->]|[n ->]]]]; by destruct Hi as (? & _).
Qed.

(** X17. The shutdown loop reaches the registry and nothing else: a
    connection that is not in the registry when the loop runs is neither
    sent the notice nor closed. *)
Theorem shutdown_skips_unregistered (w w' : World) (c : Conn)
    (order : list Conn) :
  step (AShutdown order) w = Some w' →
  c ∉ dom (clients w) →
  socks w' !! c = socks w !! c.
Proof.
  cbn [step]. destruct (alive w); [|done].
  unfold startServer_shutdown. destruct (mainpc w); try done.
  destruct (range_ok order (clients w)) eqn:Hr; [|done].
  intros Hs Hc. injection Hs as <-.
  apply range_ok_spec in Hr as [Hnd Hdom].
  change (socks (with_mainpc _ (fmt_Print _ ?x))) with (socks x).
  rewrite shutdown_loop_socks by done.
  rewrite bool_decide_eq_false_2; [done|]. by rewrite Hdom.
Qed.

End unregistered.

(** ** The first bytes a client receives *)

Lemma kstep_HStart a k k' c :
  kstep a k k' → k_handlers k' !! c = Some HStart →
  (k_handlers k !! c = Some HStart ∧ ∀ now ord, a ≠ AHandle c now ord)
  ∨ ∃ addr input, a = AAccept c addr input.
Proof.
  intros Hs Hpc.
  inversion Hs as [ | c0 | | | c0 | c0 ? ? ? ? ? ? ? Hmv | c0 | c0 | c0 | c0
                    | | | | | | ];
    subst; simpl in *.
  all: try (destruct (decide (c = c0)) as [->|Hne];
            [ rewrite ?lookup_insert_eq in Hpc
            | rewrite ?lookup_insert_ne in Hpc by done ]).
  all: try (inversion Hmv; subst).
  all: simplify_eq.
  all: try (right; by eauto).
  all: left; (split; [done|]); intros ? ? ?; simplify_eq.
Qed.

Section first_bytes.
Context `{!GoStrings}.

Lemma outbox_untouched a w w' c s :
  step a w = Some w' →
  (∀ now ord, a ≠ AHandle c now ord) →
  c ∉ dom (clients w) →
  socks w !! c = Some s →
  ∃ s', socks w' !! c = Some s' ∧ outbox s' = outbox s.
Proof.
  intros Hs Hna Hc Hsock. destruct a.
  - cbn [step] in Hs. unfold startServer in Hs. destruct (mainpc w); try done.
    destruct listen; injection Hs as <-; by exists s.
  - cbn [step] in Hs. destruct (alive w); [|done]. unfold accept_step in Hs.
    destruct (handlers w !! c0); [done|].
    destruct (socks w !! c0) eqn:Hc0; [done|]. injection Hs as <-.
    exists s. simpl. rewrite lookup_insert_ne; [done|]. intros ->. congruence.
  - cbn [step] in Hs. destruct (alive w); [|done]. injection Hs as <-.
    by exists s.
  - cbn [step] in Hs. destruct (alive w); [|done]. unfold reset_step in Hs.
    destruct (socks w !! c0); [|done]. injection Hs as <-. simpl.
    destruct (decide (c = c0)) as [->|Hne].
    + exists (sock_reset s). by rewrite lookup_alter_eq, Hsock.
    + exists s. by rewrite lookup_alter_ne.
  - exists s. split; [|done]. rewrite <-Hsock.
    apply (handler_touches_own_socket_only w w' c0 c now order Hs).
    intros ->. by eapply Hna.
  - cbn [step] in Hs. destruct (alive w); [|done]. unfold join_step in Hs.
    destruct (handlers w !! c0) as [[]|]; try done.
    destruct (coord w); try done. injection Hs as <-. by exists s.
  - cbn [step] in Hs. destruct (alive w); [|done]. unfold leave_step in Hs.
    destruct (handlers w !! c0) as [[]|]; try done.
    destruct (coord w); try done. injection Hs as <-. by exists s.
  - cbn [step] in Hs. destruct (alive w); [|done]. unfold recv_step in Hs.
    destruct (coord w); try done. destruct (messages w); try done.
    injection Hs as <-. by exists s.
  - exists s. split; [|done]. rewrite <-Hsock.
    by apply (broadcast_only_to_registered w w' order c).
  - cbn [step] in Hs. destruct (alive w); [|done].
    unfold startServer_signal in Hs. destruct (mainpc w); try done.
    injection Hs as <-. by exists s.
  - exists s. split; [|done]. rewrite <-Hsock.
    by apply (shutdown_skips_unregistered w w' c order).
Qed.

Lemma nothing_before_welcome (w : World) (c : Conn) :
  reachable w → handlers w !! c = Some HStart →
  ∃ s, socks w !! c = Some s ∧ outbox s = [].
Proof.
  intros [acts Hrun]. revert c.
  assert (Inv (control NewServer)
          ∧ ∀ c, handlers NewServer !! c = Some HStart
                 → ∃ s, socks NewServer !! c = Some s ∧ outbox s = []) as H0.
  { split; [apply Inv_init|]. intros c. simpl. by rewrite lookup_empty. }
  revert H0 Hrun. generalize NewServer as w0.
  induction acts as [|a acts IH]; intros w0 [HI HW] Hrun; simpl in Hrun.
  { injection Hrun as <-. exact HW. }
  destruct (step a w0) as [w1|] eqn:Hstep; [|done].
  apply (IH w1); [|done]. pose proof (step_kstep _ _ _ Hstep) as Hk.
  split; [by eapply Inv_kstep|].
  intros c Hpc.
  destruct (kstep_HStart _ _ _ c Hk Hpc) as [[Hpc0 Hna]|(addr & input & ->)].
  - simpl in Hpc0. destruct (HW c Hpc0) as (s & Hs & Ho).
    destruct (outbox_untouched a w0 w1 c s Hstep Hna) as (s' & Hs' & Ho');
      [|done|].
    + pose proof (HI c) as Hi. unfold pc_inv in Hi. simpl in Hi.
      rewrite Hpc0 in Hi. apply not_elem_of_dom. by destruct Hi.
    + exists s'. split; [done|congruence].
  - cbn [step] in Hstep. destruct (alive w0); [|done].
    unfold accept_step in Hstep.
    destruct (handlers w0 !! c); [done|]. destruct (socks w0 !! c); [done|].
    injection Hstep as <-. eexists. simpl. by rewrite lookup_insert_eq.
Qed.

(** X18. The first thing written to a connection is the welcome banner
    with the server time, and the second the name prompt: until its
    handler has taken its first step nothing at all has been written to
    it, by any goroutine, and that first step writes the two and moves on
    to read the name. *)
Theorem welcome_comes_first (w : World) (c : Conn) (now : Time)
    (ord : list Conn) :
  reachable w → alive w = true →
  handlers w !! c = Some HStart →
  ∃ s w', socks w !! c = Some s ∧ outbox s = []
          ∧ step (AHandle c now ord) w = Some w'
          ∧ socks w' !! c
            = Some (sock_write "Enter your name: " (sock_write (welcome now) s))
          ∧ (writable s = true →
             written c w w' = [welcome now; "Enter your name: "])
          ∧ handlers w' !! c = Some HReadName.
Proof.
  intros Hr Ha Hpc.
  destruct (nothing_before_welcome w c Hr Hpc) as (s & Hs & Ho).
  exists s. eexists. split_and!; [done | done | | | |].
  - cbn [step]. rewrite Ha. unfold handleConnection. by rewrite Hpc.
  - simpl. rewrite !socks_cWrite. simpl.
    by rewrite !lookup_alter_eq, Hs.
  - intros Hw. unfold written. rewrite Hs. simpl.
    rewrite !socks_cWrite. simpl. rewrite !lookup_alter_eq, Hs. simpl.
    rewrite Ho. unfold sock_write at 2. rewrite Hw.
    unfold sock_write, writable. simpl. unfold writable in Hw. rewrite Hw.
    simpl. by rewrite Ho.
  - simpl. by rewrite lookup_insert_eq.
Qed.

End first_bytes.

(** ** The further properties at concrete runs *)

Lemma join_announced_to_others_witness :
  alive bob_join_received = true
  ∧ coord bob_join_received = CJoin 2
  ∧ range_ok [1] (clients bob_join_received) = true
  ∧ ∃ w', step (ACoord [1]) bob_join_received = Some w'
          ∧ socks w' !! 2 = socks bob_join_received !! 2
          ∧ stdout w' = stdout bob_join_received ++ [joined_msg ""].
Proof.
  assert (alive bob_join_received = true) as H1 by (vm_compute; reflexivity).
  assert (coord bob_join_received = CJoin 2) as H2 by (vm_compute; reflexivity).
  assert (range_ok [1] (clients bob_join_received) = true) as H3
    by (vm_compute; reflexivity).
  split_and!; [exact H1 | exact H2 | exact H3 |].
  destruct (join_announced_to_others bob_join_received 2 [1] H1 H2 H3)
    as (w' & Hs & _ & _ & _ & Hown & Hout & _).
  exists w'. split_and!; [exact Hs | exact Hown | exact Hout].
Defined.

Lemma join_announcement_name_witness :
  reachable bob_join_received
  ∧ alive bob_join_received = true
  ∧ coord bob_join_received = CJoin 2
  ∧ range_ok [1] (clients bob_join_received) = true
  ∧ handlers bob_join_received !! 2 = Some (HRegister "Bob")
  ∧ ∃ w', step (ACoord [1]) bob_join_received = Some w'
          ∧ stdout w' = stdout bob_join_received ++ [joined_msg ""].
Proof.
  assert (reachable bob_join_received) as H0
    by (apply after_reachable; vm_compute; eauto).
  assert (alive bob_join_received = true) as H1 by (vm_compute; reflexivity).
  assert (coord bob_join_received = CJoin 2) as H2 by (vm_compute; reflexivity).
  assert (range_ok [1] (clients bob_join_received) = true) as H3
    by (vm_compute; reflexivity).
  assert (handlers bob_join_received !! 2 = Some (HRegister "Bob")) as H4
    by (vm_compute; reflexivity).
  split_and!; [exact H0 | exact H1 | exact H2 | exact H3 | exact H4 |].
  destruct (join_announcement_name bob_join_received 2 "Bob" [1] H0 H1 H2 H3)
    as (w' & Hs & Hearly & _).
  exists w'. split; [exact Hs | exact (Hearly H4)].
Defined.


Lemma leave_always_finds_entry_witness :
  reachable alice_leaving
  ∧ coord alice_leaving = CLeave 1
  ∧ ∃ clientName, clients alice_leaving !! 1 = Some clientName.
Proof.
  assert (reachable alice_leaving) as H0
    by (apply after_reachable; vm_compute; eauto).
  assert (coord alice_leaving = CLeave 1) as H1 by (vm_compute; reflexivity).
  split_and!; [exact H0 | exact H1 |].
  exact (leave_always_finds_entry alice_leaving 1 H0 H1).
Defined.

Lemma registers_under_display_name_witness :
  alive blank_name = true
  ∧ handlers blank_name !! 1 = Some HReadName
  ∧ Scan 1 blank_name = Some ("   ", scanned 1 blank_name)
  ∧ coord blank_name = CSelect
  ∧ ∃ w', run [AHandle 1 noon []; AJoin 1; AHandle 1 noon []] blank_name
          = Some w'
          ∧ clients w' = <[1 := display_name "   " (RemoteAddr 1 blank_name)]>
                           (clients blank_name)
          ∧ display_name "   " (RemoteAddr 1 blank_name) = alice_addr.
Proof.
  assert (alive blank_name = true) as H1 by (vm_compute; reflexivity).
  assert (handlers blank_name !! 1 = Some HReadName) as H2
    by (vm_compute; reflexivity).
  assert (Scan 1 blank_name = Some ("   ", scanned 1 blank_name)) as H3
    by (vm_compute; reflexivity).
  assert (coord blank_name = CSelect) as H4 by (vm_compute; reflexivity).
  split_and!; [exact H1 | exact H2 | exact H3 | exact H4 |].
  destruct (registers_under_display_name blank_name _ 1 "   " noon []
              H1 H2 H3 H4) as (w' & Hrun & Hcl & _).
  exists w'. split_and!; [exact Hrun | exact Hcl | vm_compute; reflexivity].
Defined.



Lemma messages_in_send_order_witness :
  reachable chat_received
  ∧ sent_payloads (history chat_received)
    = handled_payloads (history chat_received)
      ++ in_flight (coord chat_received) ++ messages chat_received.
Proof.
  assert (reachable chat_received) as H0
    by (apply after_reachable; vm_compute; eauto).
  split; [exact H0 | exact (messages_in_send_order chat_received H0)].
Defined.

Lemma broadcast_only_to_registered_witness :
  step (ACoord [1]) bob_join_received = Some bob_announced
  ∧ (2 ∉ dom (clients bob_join_received))
  ∧ socks bob_announced !! 2 = socks bob_join_received !! 2.
Proof.
  assert (step (ACoord [1]) bob_join_received = Some bob_announced) as H1
    by (vm_compute; reflexivity).
  assert (2 ∉ dom (clients bob_join_received)) as H2.
  { apply not_elem_of_dom. vm_compute. reflexivity. }
  split_and!; [exact H1 | exact H2 |].
  exact (broadcast_only_to_registered _ _ _ 2 H1 H2).
Defined.

Lemma handler_touches_own_socket_only_witness :
  step (AHandle 1 noon [1; 2]) two_clients = Some first_reply
  ∧ 2 ≠ 1
  ∧ socks first_reply !! 2 = socks two_clients !! 2.
Proof.
  assert (step (AHandle 1 noon [1; 2]) two_clients = Some first_reply) as H1
    by (vm_compute; reflexivity).
  assert (2 ≠ 1) as H2 by lia.
  split_and!; [exact H1 | exact H2 |].
  exact (handler_touches_own_socket_only _ _ 1 2 _ _ H1 H2).
Defined.

Lemma closed_connection_stays_silent_witness :
  ∃ s, socks alice_quit !! 1 = Some s
       ∧ closed s = true
       ∧ run [AHandle 2 noon []; ALeave 2; ACoord [1]] alice_quit
         = Some bob_left_after_quit
       ∧ ∃ s', socks bob_left_after_quit !! 1 = Some s'
               ∧ closed s' = true ∧ outbox s' = outbox s.
Proof.
  assert (is_Some (socks alice_quit !! 1)) as [s Hs] by (vm_compute; eauto).
  assert (closed <$> (socks alice_quit !! 1) = Some true) as Hc
    by (vm_compute; reflexivity).
  assert (closed s = true) as Hcs.
  { rewrite Hs in Hc. simpl in Hc. congruence. }
  assert (run [AHandle 2 noon []; ALeave 2; ACoord [1]] alice_quit
          = Some bob_left_after_quit) as Hrun by (vm_compute; reflexivity).
  exists s. split_and!; [exact Hs | exact Hcs | exact Hrun |].
  destruct (closed_connection_stays_silent alice_quit bob_left_after_quit 1 s
              _ Hs Hcs Hrun) as (s' & Hs' & Hc' & Ho' & _).
  exists s'. split_and!; [exact Hs' | exact Hc' | exact Ho'].
Defined.

Lemma clients_lists_the_requester_witness :
  reachable alone_asks
  ∧ alive alone_asks = true
  ∧ handlers alone_asks !! 1 = Some (HLoop "Alice")
  ∧ Scan 1 alone_asks = Some ("clients", scanned 1 alone_asks)
  ∧ TrimSpace "clients" ≠ ""
  ∧ ToLower (TrimSpace "clients") = "clients"
  ∧ range_ok [1] (clients alone_asks) = true
  ∧ step (AHandle 1 noon [1]) alone_asks
    = Some (write_all 1 (clients_reply (clients alone_asks) [1])
              (scanned 1 alone_asks))
  ∧ clients_reply (clients alone_asks) [1]
    = [ "Connected clients (1):" +:+ LF; "  - Alice" +:+ LF; LF ].
Proof.
  assert (reachable alone_asks) as H0
    by (apply after_reachable; vm_compute; eauto).
  assert (alive alone_asks = true) as H1 by (vm_compute; reflexivity).
  assert (handlers alone_asks !! 1 = Some (HLoop "Alice")) as H2
    by (vm_compute; reflexivity).
  assert (Scan 1 alone_asks = Some ("clients", scanned 1 alone_asks)) as H3
    by (vm_compute; reflexivity).
  assert (TrimSpace "clients" ≠ "") as H4 by (vm_compute; discriminate).
  assert (ToLower (TrimSpace "clients") = "clients") as H5
    by (vm_compute; reflexivity).
  assert (range_ok [1] (clients alone_asks) = true) as H6
    by (vm_compute; reflexivity).
  assert (size (clients alone_asks) = 1) as H7 by (vm_compute; reflexivity).
  destruct (clients_lists_the_requester alone_asks _ 1 "Alice" "clients" noon
              [1] H0 H1 H2 H3 H4 H5 H6) as (Hs & _ & _ & Hsole).
  split_and!; [exact H0 | exact H1 | exact H2 | exact H3 | exact H4 | exact H5
              | exact H6 | exact Hs | exact (Hsole H7)].
Defined.

Lemma one_join_one_leave_witness :
  reachable bob_left_after_quit
  ∧ count_ev (is_join_sent 2) (history bob_left_after_quit) ≤ 1
  ∧ count_ev (is_leave_handled 2) (history bob_left_after_quit)
    ≤ count_ev (is_leave_sent 2) (history bob_left_after_quit).
Proof.
  assert (reachable bob_left_after_quit) as H0
    by (apply after_reachable; vm_compute; eauto).
  destruct (one_join_one_leave bob_left_after_quit 2 H0)
    as (HJ & _ & _ & _ & HL).
  split_and!; [exact H0 | exact HJ | exact HL].
Defined.

Lemma no_traffic_before_registration_witness :
  reachable bob_unnamed
  ∧ handlers bob_unnamed !! 2 = Some HReadName
  ∧ step (ACoord [1]) bob_unnamed = Some bob_unnamed_after
  ∧ socks bob_unnamed_after !! 2 = socks bob_unnamed !! 2
  ∧ written 1 bob_unnamed bob_unnamed_after = ["[12:00:07] Alice: hi" +:+ LF].
Proof.
  assert (reachable bob_unnamed) as H0
    by (apply after_reachable; vm_compute; eauto).
  assert (handlers bob_unnamed !! 2 = Some HReadName) as H1
    by (vm_compute; reflexivity).
  assert (step (ACoord [1]) bob_unnamed = Some bob_unnamed_after) as H2
    by (vm_compute; reflexivity).
  split_and!; [exact H0 | exact H1 | exact H2 | | vm_compute; reflexivity].
  apply (no_traffic_before_registration bob_unnamed bob_unnamed_after 2
           HReadName [1] H0 H1); [|exact H2].
  right. left. reflexivity.
Defined.

Lemma shutdown_skips_unregistered_witness :
  step (AShutdown []) draining = Some drained
  ∧ (1 ∉ dom (clients draining))
  ∧ socks drained !! 1 = socks draining !! 1.
Proof.
  assert (step (AShutdown []) draining = Some drained) as H1
    by (vm_compute; reflexivity).
  assert (1 ∉ dom (clients draining)) as H2.
  { apply not_elem_of_dom. vm_compute. reflexivity. }
  split_and!; [exact H1 | exact H2 |].
  exact (shutdown_skips_unregistered _ _ 1 _ H1 H2).
Defined.

Lemma welcome_comes_first_witness :
  reachable just_accepted
  ∧ alive just_accepted = true
  ∧ handlers just_accepted !! 1 = Some HStart
  ∧ ∃ s w', socks just_accepted !! 1 = Some s ∧ outbox s = []
            ∧ step (AHandle 1 noon []) just_accepted = Some w'
            ∧ handlers w' !! 1 = Some HReadName.
Proof.
  assert (reachable just_accepted) as H0
    by (apply after_reachable; vm_compute; eauto).
  assert (alive just_accepted = true) as H1 by (vm_compute; reflexivity).
  assert (handlers just_accepted !! 1 = Some HStart) as H2
    by (vm_compute; reflexivity).
  split_and!; [exact H0 | exact H1 | exact H2 |].
  destruct (welcome_comes_first just_accepted 1 noon [] H0 H1 H2)
    as (s & w' & Hs & Ho & Hstep & _ & _ & Hpc).
  exists s, w'. split_and!; [exact Hs | exact Ho | exact Hstep | exact Hpc].
Defined.

(** A client connects, gets the welcome and the prompt, and nothing else
    until it has sent its name. *)
Example welcome_then_prompt :
  ∃ w, step (AHandle 1 noon []) just_accepted = Some w
       ∧ written 1 just_accepted w
         = [ "Welcome to RISC-V Network Server!" +:+ LF
             +:+ "Server time: 2024-01-15T12:00:07Z" +:+ LF
             +:+ "Type 'help' for commands." +:+ LF +:+ LF;
             "Enter your name: " ].
Proof. eexists. split; vm_compute; reflexivity. Qed.
